(** * CScreenkey: the active-key aggregation of an on-screen key display

    A shallow embedding of [CScreenkey.cpp]: the global program state
    ([activeKeys], [specialKeyMap], [quit], [updated]), the ncurses
    renderer, the X11/XInput2 event handlers, the Windows low-level mouse
    hook, and the two threads of [main], followed by the properties of the
    combination string, the key set and the shutdown protocol. *)

From Stdlib Require Import ZArith List Ascii String Lia Sorted Permutation Bool.
From Stdlib Require OrdersEx.
From stdpp Require Import base gmap strings.
Import ListNotations.
Local Open Scope Z_scope.

(** ** Machine integers *)

(** Conversion to a signed two's complement integer of [bits] bits. *)
Definition wrap (bits : Z) (z : Z) : Z :=
  (z + 2 ^ (bits - 1)) mod 2 ^ bits - 2 ^ (bits - 1).

(** [int] is 32 bits wide on both platforms the program targets. *)
Definition to_int (z : Z) : Z := wrap 32 z.

Definition INT_MAX : Z := 2 ^ 31 - 1.

(** ** Constants of the platform headers

    The program takes these from the system headers it includes; the
    values are the ones of [X11/keysymdef.h], [X11/X.h],
    [X11/extensions/XI2.h] and [winuser.h]. *)

Module X11.
Definition XK_Home : Z := 0xff50.
Definition XK_Page_Up : Z := 0xff55.
Definition XK_Page_Down : Z := 0xff56.
Definition XK_End : Z := 0xff57.
Definition GenericEvent : Z := 35.
Definition XI_KeyPress : Z := 2.
Definition XI_KeyRelease : Z := 3.
Definition XI_ButtonPress : Z := 4.
Definition XI_ButtonRelease : Z := 5.
End X11.

Module Win.
Definition HC_ACTION : Z := 0.
Definition WM_LBUTTONDOWN : Z := 0x0201.
Definition WM_LBUTTONUP : Z := 0x0202.
Definition WM_RBUTTONDOWN : Z := 0x0204.
Definition WM_RBUTTONUP : Z := 0x0205.
Definition WM_MBUTTONDOWN : Z := 0x0207.
Definition WM_MBUTTONUP : Z := 0x0208.
Definition WM_MOUSEWHEEL : Z := 0x020A.

(** [(short) HIWORD(w)]: the signed high word of a 32-bit value. *)
Definition GET_WHEEL_DELTA_WPARAM (w : Z) : Z :=
  wrap 16 (Z.land (Z.shiftr w 16) 0xffff).
End Win.

(** ** [std::set<std::string>]

    The set is kept as its in-order sequence: the list of its elements in
    the order a range-for visits them, ascending for [std::less], which on
    [std::string] is the lexicographic order on bytes. *)

Definition string_lt (a b : string) : Prop :=
  OrdersEx.String_as_OT.compare a b = Lt.

Fixpoint set_insert (x : string) (s : list string) : list string :=
  match s with
  | [] => [x]
  | y :: s' =>
      match OrdersEx.String_as_OT.compare x y with
      | Lt => x :: s
      | Eq => s
      | Gt => y :: set_insert x s'
      end
  end.

Fixpoint set_erase (x : string) (s : list string) : list string :=
  match s with
  | [] => []
  | y :: s' => if String.eqb x y then s' else y :: set_erase x s'
  end.

Definition set_empty (s : list string) : bool :=
  match s with [] => true | _ :: _ => false end.

(** The representation invariant: strictly ascending, hence duplicate free. *)
Definition set_wf (s : list string) : Prop := StronglySorted string_lt s.

(** [std::string::empty]. *)
Definition str_empty (s : string) : bool :=
  match s with EmptyString => true | String _ _ => false end.

(** ** Program state *)

(** One [mvprintw(start_y, start_x, text)] call on a cleared screen. *)
Record Frame := mkFrame {
  start_y : Z;
  start_x : Z;
  text : string
}.

Record State := mkState {
  activeKeys : list string;
  specialKeyMap : gmap Z string;
  quit : bool;
  updated : bool;
  (** what [getmaxyx(stdscr, ...)] reports *)
  term_height : Z;
  term_width : Z;
  (** the frames drawn so far, newest first *)
  screen : list Frame
}.

Definition set_activeKeys (s : list string) (st : State) : State :=
  mkState s (specialKeyMap st) (quit st) (updated st)
          (term_height st) (term_width st) (screen st).

Definition set_specialKeyMap (m : gmap Z string) (st : State) : State :=
  mkState (activeKeys st) m (quit st) (updated st)
          (term_height st) (term_width st) (screen st).

Definition set_quit (b : bool) (st : State) : State :=
  mkState (activeKeys st) (specialKeyMap st) b (updated st)
          (term_height st) (term_width st) (screen st).

Definition set_updated (b : bool) (st : State) : State :=
  mkState (activeKeys st) (specialKeyMap st) (quit st) b
          (term_height st) (term_width st) (screen st).

Definition draw (f : Frame) (st : State) : State :=
  mkState (activeKeys st) (specialKeyMap st) (quit st) (updated st)
          (term_height st) (term_width st) (f :: screen st).

(** The globals as the program starts: everything empty or false. *)
Definition initial_state (height width : Z) : State :=
  mkState [] ∅ false false height width [].

(** ** The renderer *)

Definition center_x (term_width : Z) (inputText : string) : Z :=
  let text_length := to_int (Z.of_nat (String.length inputText)) in
  Z.quot (to_int (term_width - text_length)) 2.

Definition center_y (term_height : Z) : Z := Z.quot term_height 2.

Definition renderText (inputText : string) (st : State) : State :=
  draw (mkFrame (center_y (term_height st))
                (center_x (term_width st) inputText)
                inputText) st.

(** [std::toupper] in the "C" locale (the program never sets another). *)
Definition toupper (c : ascii) : ascii :=
  let n := N_of_ascii c in
  if ((97 <=? n) && (n <=? 122))%N then ascii_of_N (n - 32) else c.

(** The local [uppercase_combination] that [showPressedKey] builds. *)
Definition uppercase_combination (combination : string) : string :=
  fold_left (fun acc c => acc +:+ String (toupper c) EmptyString)
            (list_ascii_of_string combination) EmptyString.

Definition showPressedKey (combination : string) (st : State) : State :=
  renderText (uppercase_combination combination) st.

(** One round of the loop of [updateKeyCombination]. *)
Definition append_key (combination key : string) : string :=
  (if negb (str_empty combination) then combination +:+ " + " else combination)
  +:+ key.

Definition build_combination (keys : list string) : string :=
  fold_left append_key keys EmptyString.

Definition updateKeyCombination (st : State) : State :=
  let st1 :=
    if negb (set_empty (activeKeys st))
    then showPressedKey (build_combination (activeKeys st)) st
    else st in
  set_updated true st1.

Definition addSpecialKey (keyStr : string) (st : State) : State :=
  updateKeyCombination (set_activeKeys (set_insert keyStr (activeKeys st)) st).

Definition removeSpecialKey (keyStr : string) (st : State) : State :=
  updateKeyCombination (set_activeKeys (set_erase keyStr (activeKeys st)) st).

Definition clearActiveKeys (st : State) : State := set_activeKeys [] st.

Definition initializeKeyMappings (st : State) : State :=
  let m := specialKeyMap st in
  let m := <[X11.XK_Page_Up := "PAGE UP"]> m in
  let m := <[X11.XK_Page_Down := "PAGE DOWN"]> m in
  let m := <[X11.XK_Home := "HOME"]> m in
  let m := <[X11.XK_End := "END"]> m in
  let m := <[1 := "MOUSE LEFT CLICK"]> m in
  let m := <[2 := "MOUSE MIDDLE CLICK"]> m in
  let m := <[3 := "MOUSE RIGHT CLICK"]> m in
  let m := <[4 := "MOUSE SCROLL UP"]> m in
  let m := <[5 := "MOUSE SCROLL DOWN"]> m in
  set_specialKeyMap m st.

(** ** The X11 / XInput2 handlers *)

(** A handler either returns with a new state or brings the process down. *)
Inductive outcome :=
| Returns (st : State)
| Crashes.

(** The fields of an [XEvent] cookie that the event loop reads. *)
Record XEvent := mkXEvent {
  xcookie_type : Z;
  xcookie_extension : Z;
  xcookie_evtype : Z;
  xide_detail : Z
}.

Section Linux.

(** The X server's keyboard mapping, and Xlib's table of keysym names,
    which answers [None] (a null pointer) for a keysym it has no name
    for. *)
Variable XkbKeycodeToKeysym : Z -> Z.
Variable XKeysymToString : Z -> option string.

Definition handleLinuxKeyPress (detail : Z) (st : State) : outcome :=
  let keysym := XkbKeycodeToKeysym detail in
  let resolved :=
    match specialKeyMap st !! to_int keysym with
    | Some name => Some name
    | None => XKeysymToString keysym
    end in
  match resolved with
  | None => Crashes (* a [std::string] assigned from a null pointer *)
  | Some keyStr =>
      if negb (str_empty keyStr)
      then Returns (updateKeyCombination
                      (set_activeKeys (set_insert keyStr (activeKeys st)) st))
      else Returns st
  end.

Definition handleLinuxKeyRelease (detail : Z) (st : State) : outcome :=
  let keysym := XkbKeycodeToKeysym detail in
  let resolved :=
    match specialKeyMap st !! to_int keysym with
    | Some name => Some name
    | None => XKeysymToString keysym
    end in
  match resolved with
  | None => Crashes (* a [std::string] assigned from a null pointer *)
  | Some keyStr =>
      if negb (str_empty keyStr)
      then Returns (updateKeyCombination
                      (set_activeKeys (set_erase keyStr (activeKeys st)) st))
      else Returns st
  end.

Definition handleLinuxButtonPress (detail : Z) (st : State) : State :=
  let buttonStr :=
    match specialKeyMap st !! detail with
    | Some name => name
    | None => "Unknown Mouse Button"
    end in
  if negb (str_empty buttonStr)
  then updateKeyCombination
         (set_activeKeys (set_insert buttonStr (activeKeys st)) st)
  else st.

Definition handleLinuxButtonRelease (detail : Z) (st : State) : State :=
  let buttonStr :=
    match specialKeyMap st !! detail with
    | Some name => name
    | None => "Unknown Mouse Button"
    end in
  if negb (str_empty buttonStr)
  then updateKeyCombination
         (set_activeKeys (set_erase buttonStr (activeKeys st)) st)
  else st.

(** The body of the event loop of [startLinuxScreenKey], after
    [XNextEvent] has filled in [event]. *)
Definition dispatch (opcode : Z) (event : XEvent) (st : State) : outcome :=
  if (xcookie_type event =? X11.GenericEvent)
     && (xcookie_extension event =? opcode)
  then
    if xcookie_evtype event =? X11.XI_KeyPress
    then handleLinuxKeyPress (xide_detail event) st
    else if xcookie_evtype event =? X11.XI_KeyRelease
    then handleLinuxKeyRelease (xide_detail event) st
    else if xcookie_evtype event =? X11.XI_ButtonPress
    then Returns (handleLinuxButtonPress (xide_detail event) st)
    else if xcookie_evtype event =? X11.XI_ButtonRelease
    then Returns (handleLinuxButtonRelease (xide_detail event) st)
    else Returns st
  else Returns st.

End Linux.

(** ** The Windows low-level mouse hook *)

Definition LowLevelMouseProc (nCode wParam mouseData : Z) (st : State) : State :=
  if nCode =? Win.HC_ACTION then
    let buttonStr :=
      if wParam =? Win.WM_LBUTTONDOWN then "MOUSE LEFT CLICK"
      else if wParam =? Win.WM_MBUTTONDOWN then "MOUSE MIDDLE CLICK"
      else if wParam =? Win.WM_RBUTTONDOWN then "MOUSE RIGHT CLICK"
      else if wParam =? Win.WM_MOUSEWHEEL then
        if 0 <? Win.GET_WHEEL_DELTA_WPARAM mouseData
        then "MOUSE SCROLL UP" else "MOUSE SCROLL DOWN"
      else EmptyString in
    let st1 :=
      if negb (str_empty buttonStr)
      then updateKeyCombination
             (set_activeKeys (set_insert buttonStr (activeKeys st)) st)
      else st in
    if (wParam =? Win.WM_LBUTTONUP) || (wParam =? Win.WM_MBUTTONUP)
       || (wParam =? Win.WM_RBUTTONUP)
    then updateKeyCombination
           (set_activeKeys (set_erase buttonStr (activeKeys st1)) st1)
    else st1
  else st.

(** ** The two threads of [main]

    The main thread polls the terminal for [q]; the worker thread runs
    [startLinuxScreenKey].  They share the globals, and their steps
    interleave; each step below is one atomic action of one thread. *)

Inductive worker_pc :=
| W_entry                (* [startLinuxScreenKey] has not run yet *)
| W_loop (opcode : Z)    (* at the test of [while (!quit)] *)
| W_wait (opcode : Z)    (* blocked inside [XNextEvent] *)
| W_returned
| W_crashed.

Inductive main_pc :=
| M_loop                 (* at the test of [while (!quit)] *)
| M_join                 (* inside [screenKeyThread.join()] *)
| M_exited.

Record System := mkSystem {
  globals : State;
  worker : worker_pc;
  main_thread : main_pc;
  (** whether the connection to the X server is open *)
  display_open : bool
}.

Inductive thread := Main | Worker.

Inductive action :=
| A_open_failed           (* [XOpenDisplay] returns null *)
| A_no_extension          (* display opened, [XQueryExtension] fails *)
| A_connected (opcode : Z)
| A_enter_wait            (* [!quit] holds; [XNextEvent] is called *)
| A_event (e : XEvent)    (* the server delivers [e]; it is handled *)
| A_worker_exit           (* [quit] seen; [XCloseDisplay]; return *)
| A_getch (ch : Z)        (* one round of the polling loop of [main] *)
| A_main_leave            (* [quit] seen; the polling loop is left *)
| A_join.                 (* [join] returns; [endwin] *)

Definition actor (a : action) : thread :=
  match a with
  | A_getch _ | A_main_leave | A_join => Main
  | _ => Worker
  end.

(** The actions that need the X server to deliver an event. *)
Definition is_event (a : action) : bool :=
  match a with A_event _ => true | _ => false end.

Definition initial_system (height width : Z) : System :=
  mkSystem (initial_state height width) W_entry M_loop false.

Section Threads.

Variable XkbKeycodeToKeysym : Z -> Z.
Variable XKeysymToString : Z -> option string.

(** [step a s] is the state after action [a], or [None] when [a] is not
    enabled in [s]. *)
Definition step (a : action) (s : System) : option System :=
  let g := globals s in
  match a, worker s, main_thread s with
  | A_open_failed, W_entry, m =>
      Some (mkSystem g W_returned m false)
  | A_no_extension, W_entry, m =>
      Some (mkSystem (initializeKeyMappings g) W_returned m false)
  | A_connected opcode, W_entry, m =>
      Some (mkSystem (initializeKeyMappings g) (W_loop opcode) m true)
  | A_enter_wait, W_loop opcode, m =>
      if quit g then None
      else Some (mkSystem g (W_wait opcode) m (display_open s))
  | A_worker_exit, W_loop opcode, m =>
      if quit g then Some (mkSystem g W_returned m false) else None
  | A_event e, W_wait opcode, m =>
      match dispatch XkbKeycodeToKeysym XKeysymToString opcode e g with
      | Returns g' => Some (mkSystem g' (W_loop opcode) m (display_open s))
      | Crashes => Some (mkSystem g W_crashed m (display_open s))
      end
  | A_getch ch, w, M_loop =>
      if quit g then None
      else Some (mkSystem (if ch =? 113 then set_quit true g else g)
                          w M_loop (display_open s))
  | A_main_leave, w, M_loop =>
      if quit g then Some (mkSystem g w M_join (display_open s)) else None
  | A_join, W_returned, M_join =>
      Some (mkSystem g W_returned M_exited (display_open s))
  | _, _, _ => None
  end.

Fixpoint run (trace : list action) (s : System) : option System :=
  match trace with
  | [] => Some s
  | a :: trace' =>
      match step a s with
      | Some s' => run trace' s'
      | None => None
      end
  end.

End Threads.

(** ** Vocabulary of the statements *)

(** The lower-case letters ['a'] to ['z']. *)
Definition islower (c : ascii) : bool :=
  ((97 <=? N_of_ascii c) && (N_of_ascii c <=? 122))%N.

(** A string that holds no lower-case letter. *)
Definition already_uppercase (s : string) : bool :=
  forallb (fun c => negb (islower c)) (list_ascii_of_string s).

(** The string with [f] applied to every character. *)
Fixpoint map_chars (f : ascii -> ascii) (s : string) : string :=
  match s with
  | EmptyString => EmptyString
  | String c s' => String (f c) (map_chars f s')
  end.

(** [apply(name, isPress)] of the key set: a press inserts and a release
    erases, each followed by [updateKeyCombination]. *)
Definition apply_event (name : string) (isPress : bool) (st : State) : State :=
  if isPress then addSpecialKey name st else removeSpecialKey name st.

(** Presses of [names], one after the other. *)
Definition press_all (names : list string) (st : State) : State :=
  fold_left (fun st name => addSpecialKey name st) names st.

(** The table that [initializeKeyMappings] is meant to set up. *)
Definition special_keys : list (Z * string) :=
  [ (X11.XK_Page_Up, "PAGE UP"); (X11.XK_Page_Down, "PAGE DOWN");
    (X11.XK_Home, "HOME"); (X11.XK_End, "END");
    (1, "MOUSE LEFT CLICK"); (2, "MOUSE MIDDLE CLICK");
    (3, "MOUSE RIGHT CLICK"); (4, "MOUSE SCROLL UP");
    (5, "MOUSE SCROLL DOWN") ].

(** The same table as a map. *)
Definition key_table : gmap Z string := list_to_map special_keys.

(** What holds of the globals at each place of the worker thread. *)
Definition table_invariant (s : System) : Prop :=
  match worker s with
  | W_entry =>
      specialKeyMap (globals s) = ∅ /\ activeKeys (globals s) = []
      /\ screen (globals s) = []
  | W_loop _ | W_wait _ | W_crashed =>
      specialKeyMap (globals s) = key_table
  | W_returned =>
      specialKeyMap (globals s) = ∅ \/ specialKeyMap (globals s) = key_table
  end.

(** A key set as the handlers keep it: well-formed, without the empty name. *)
Definition keys_ok (s : list string) : Prop :=
  set_wf s /\ ~ In EmptyString s.

(** ** The Windows low-level keyboard hook *)

(** The key messages of [winuser.h]. *)
Module WinKbd.
Definition WM_KEYDOWN : Z := 0x0100.
Definition WM_KEYUP : Z := 0x0101.
End WinKbd.

Section WindowsKeyboard.

(** The key-name table of the system: the text that [GetKeyNameTextA]
    writes for an [lParam], or [None] when the call fails and writes
    nothing. *)
Variable GetKeyNameTextA : Z -> option string.

(** [key] is what the uninitialised buffer [char key[16]] happens to hold;
    it is what [keyStr] is built from when the call has written nothing. *)
Definition LowLevelKeyboardProc (nCode wParam scanCode : Z) (key : string)
    (st : State) : State :=
  if nCode =? Win.HC_ACTION then
    let lParam := to_int (Z.shiftl scanCode 16 mod 2 ^ 32) in
    let keyStr :=
      match GetKeyNameTextA lParam with
      | Some name => name
      | None => key
      end in
    if wParam =? WinKbd.WM_KEYDOWN
    then updateKeyCombination
           (set_activeKeys (set_insert keyStr (activeKeys st)) st)
    else if wParam =? WinKbd.WM_KEYUP
    then updateKeyCombination
           (set_activeKeys (set_erase keyStr (activeKeys st)) st)
    else st
  else st.

End WindowsKeyboard.

(** ** Further vocabulary *)

(** The name the key handlers resolve a keysym to: the table entry when
    there is one, else what [XKeysymToString] answers. *)
Definition resolve_key (XKeysymToString : Z -> option string)
    (m : gmap Z string) (keysym : Z) : option string :=
  match m !! to_int keysym with
  | Some name => Some name
  | None => XKeysymToString keysym
  end.

(** The name the button handlers resolve a button number to. *)
Definition resolve_button (m : gmap Z string) (detail : Z) : string :=
  match m !! detail with
  | Some name => name
  | None => "Unknown Mouse Button"
  end.

(** The mouse hook called for a sequence of messages, each given as
    [(nCode, wParam, mouseData)]. *)
Definition mouse_hook_run (messages : list (Z * Z * Z)) (st : State) : State :=
  fold_left (fun st m => LowLevelMouseProc (fst (fst m)) (snd (fst m)) (snd m) st)
            messages st.

(** The text on the screen: that of the newest frame. *)
Definition shown (st : State) : option string :=
  match screen st with
  | [] => None
  | f :: _ => Some (text f)
  end.

(** A frame as the event handlers draw it on a terminal of the given size:
    a non-empty text without lower-case letters, centred. *)
Definition frame_ok (height width : Z) (f : Frame) : Prop :=
  str_empty (text f) = false /\ already_uppercase (text f) = true
  /\ start_y f = center_y height /\ start_x f = center_x width (text f).

(** The screen against the key set: all frames are well drawn, and while
    keys are held the newest frame is their upper-cased join. *)
Definition display_invariant (height width : Z) (st : State) : Prop :=
  term_height st = height /\ term_width st = width
  /\ keys_ok (activeKeys st)
  /\ Forall (frame_ok height width) (screen st)
  /\ (activeKeys st <> [] ->
      shown st =
      Some (map_chars toupper (String.concat " + " (activeKeys st)))).

(** The connection and the flag against the places of the two threads. *)
Definition connection_invariant (s : System) : Prop :=
  match worker s with
  | W_loop _ | W_wait _ | W_crashed => display_open s = true
  | W_entry | W_returned => display_open s = false
  end
  /\ match main_thread s with
     | M_loop => True
     | M_join => quit (globals s) = true
     | M_exited => quit (globals s) = true /\ worker s = W_returned
     end.

(** The steps of the worker's start-up in which [XOpenDisplay] succeeds. *)
Definition opens_display (a : action) : bool :=
  match a with
  | A_connected _ | A_no_extension => true
  | _ => false
  end.

(** * Properties *)

(** ** Strings *)

Lemma append_cons (c : ascii) (a b : string) :
  String c a +:+ b = String c (a +:+ b).
Proof. reflexivity. Qed.

Lemma append_nil_l (s : string) : EmptyString +:+ s = s.
Proof. reflexivity. Qed.

Lemma append_nil_r (s : string) : s +:+ EmptyString = s.
Proof.
  induction s as [|c s IH]; [reflexivity | now rewrite append_cons, IH].
Qed.

Lemma append_assoc (a b c : string) : (a +:+ b) +:+ c = a +:+ (b +:+ c).
Proof.
  induction a as [|x a IH]; [reflexivity | now rewrite !append_cons, IH].
Qed.

Lemma str_empty_true (s : string) : str_empty s = true <-> s = EmptyString.
Proof. destruct s; simpl; split; congruence. Qed.

Lemma str_empty_append (a b : string) :
  str_empty (a +:+ b) = str_empty a && str_empty b.
Proof. destruct a; reflexivity. Qed.

Lemma length_append (a b : string) :
  String.length (a +:+ b) = (String.length a + String.length b)%nat.
Proof.
  induction a as [|x a IH]; [reflexivity|].
  rewrite append_cons. simpl. now rewrite IH.
Qed.

(** ** The order on strings *)

Lemma string_lt_irrefl (a : string) : ~ string_lt a a.
Proof.
  exact (@irreflexivity _ _
           (@StrictOrder_Irreflexive _ _ OrdersEx.String_as_OT.lt_strorder) a).
Qed.

Lemma string_lt_trans (a b c : string) :
  string_lt a b -> string_lt b c -> string_lt a c.
Proof.
  exact (@transitivity _ _
           (@StrictOrder_Transitive _ _ OrdersEx.String_as_OT.lt_strorder) a b c).
Qed.

Lemma compare_refl (a : string) : OrdersEx.String_as_OT.compare a a = Eq.
Proof.
  destruct (OrdersEx.String_as_OT.compare_spec a a) as [_ | H | H];
    [reflexivity | | ]; exfalso; exact (string_lt_irrefl a H).
Qed.

Lemma compare_Eq (a b : string) :
  OrdersEx.String_as_OT.compare a b = Eq -> a = b.
Proof.
  destruct (OrdersEx.String_as_OT.compare_spec a b); congruence.
Qed.

Lemma compare_Gt (a b : string) :
  OrdersEx.String_as_OT.compare a b = Gt -> string_lt b a.
Proof.
  destruct (OrdersEx.String_as_OT.compare_spec a b); congruence.
Qed.

(** ** The set operations *)

Lemma In_set_insert (x z : string) (s : list string) :
  In z (set_insert x s) <-> z = x \/ In z s.
Proof.
  induction s as [|y s IH]; simpl.
  - intuition.
  - destruct (OrdersEx.String_as_OT.compare x y) eqn:E; simpl.
    + apply compare_Eq in E; subst. intuition.
    + intuition.
    + rewrite IH. intuition.
Qed.

Lemma set_insert_wf (x : string) (s : list string) :
  set_wf s -> set_wf (set_insert x s).
Proof.
  unfold set_wf. induction s as [|y s IH]; simpl; intros Hs.
  - constructor; constructor.
  - destruct (OrdersEx.String_as_OT.compare x y) eqn:E.
    + assumption.
    + constructor; [assumption|].
      apply StronglySorted_inv in Hs as [_ Hy].
      constructor; [exact E|].
      rewrite List.Forall_forall in Hy. apply List.Forall_forall.
      intros z Hz. exact (string_lt_trans _ _ _ E (Hy z Hz)).
    + apply StronglySorted_inv in Hs as [Hs Hy].
      constructor; [apply IH; assumption|].
      apply List.Forall_forall. intros z Hz.
      apply In_set_insert in Hz as [-> | Hz].
      * apply compare_Gt; assumption.
      * rewrite List.Forall_forall in Hy. apply Hy; assumption.
Qed.

Lemma set_insert_idem (x : string) (s : list string) :
  set_insert x (set_insert x s) = set_insert x s.
Proof.
  induction s as [|y s IH]; simpl.
  - now rewrite compare_refl.
  - destruct (OrdersEx.String_as_OT.compare x y) eqn:E; simpl.
    + now rewrite E.
    + now rewrite compare_refl.
    + now rewrite E, IH.
Qed.

Lemma set_insert_nonempty (x : string) (s : list string) :
  set_empty (set_insert x s) = false.
Proof.
  destruct s as [|y s]; simpl; [reflexivity|].
  destruct (OrdersEx.String_as_OT.compare x y); reflexivity.
Qed.

Lemma set_erase_absent (x : string) (s : list string) :
  ~ In x s -> set_erase x s = s.
Proof.
  induction s as [|y s IH]; simpl; intros Hx; [reflexivity|].
  destruct (String.eqb_spec x y) as [->|Hne].
  - exfalso. apply Hx. now left.
  - f_equal. apply IH. intros H. apply Hx. now right.
Qed.

Lemma In_set_erase_ne (x z : string) (s : list string) :
  z <> x -> In z s -> In z (set_erase x s).
Proof.
  intros Hne. induction s as [|y s IH]; simpl; [tauto|].
  destruct (String.eqb_spec x y) as [->|Hxy]; simpl; intuition congruence.
Qed.

Lemma In_set_erase_sub (x z : string) (s : list string) :
  In z (set_erase x s) -> In z s.
Proof.
  induction s as [|y s IH]; simpl; [tauto|].
  destruct (String.eqb_spec x y) as [->|Hxy]; simpl; intuition.
Qed.

Lemma set_wf_head_notin (y : string) (s : list string) :
  set_wf (y :: s) -> ~ In y s.
Proof.
  intros Hs Hin. apply StronglySorted_inv in Hs as [_ Hy].
  rewrite List.Forall_forall in Hy. exact (string_lt_irrefl y (Hy y Hin)).
Qed.

Lemma set_erase_gone (x : string) (s : list string) :
  set_wf s -> ~ In x (set_erase x s).
Proof.
  induction s as [|y s IH]; simpl; intros Hs; [tauto|].
  destruct (String.eqb_spec x y) as [->|Hxy].
  - now apply set_wf_head_notin.
  - apply StronglySorted_inv in Hs as [Hs _].
    simpl. intros [H|H]; [congruence | now apply IH].
Qed.

Lemma set_erase_wf (x : string) (s : list string) :
  set_wf s -> set_wf (set_erase x s).
Proof.
  unfold set_wf. induction s as [|y s IH]; simpl; intros Hs; [constructor|].
  apply StronglySorted_inv in Hs as [Hs Hy].
  destruct (String.eqb x y); [assumption|].
  constructor; [now apply IH|].
  apply List.Forall_forall. intros z Hz. apply In_set_erase_sub in Hz.
  rewrite List.Forall_forall in Hy. now apply Hy.
Qed.

(** Two well-formed sets with the same members are the same sequence. *)
Lemma set_wf_unique (s1 s2 : list string) :
  set_wf s1 -> set_wf s2 -> (forall x, In x s1 <-> In x s2) -> s1 = s2.
Proof.
  revert s2. induction s1 as [|a s1 IH]; intros [|b s2] H1 H2 Hiff.
  - reflexivity.
  - exfalso. apply (proj2 (Hiff b)). now left.
  - exfalso. apply (proj1 (Hiff a)). now left.
  - pose proof (set_wf_head_notin _ _ H1) as Na.
    pose proof (set_wf_head_notin _ _ H2) as Nb.
    apply StronglySorted_inv in H1 as [H1 Ha].
    apply StronglySorted_inv in H2 as [H2 Hb].
    rewrite List.Forall_forall in Ha, Hb.
    assert (a = b) as ->.
    { destruct (proj1 (Hiff a) (or_introl eq_refl)) as [E|Hin]; [congruence|].
      destruct (proj2 (Hiff b) (or_introl eq_refl)) as [E|Hin']; [congruence|].
      exfalso. apply (string_lt_irrefl a).
      exact (string_lt_trans _ _ _ (Ha _ Hin') (Hb _ Hin)). }
    f_equal. apply IH; [assumption | assumption |].
    intros x. split; intros Hx.
    + destruct (proj1 (Hiff x) (or_intror Hx)) as [E|Hin]; [subst; tauto | exact Hin].
    + destruct (proj2 (Hiff x) (or_intror Hx)) as [E|Hin]; [subst; tauto | exact Hin].
Qed.

Lemma set_erase_insert (x : string) (s : list string) :
  set_wf s -> ~ In x s -> set_erase x (set_insert x s) = s.
Proof.
  intros Hs Hx. apply set_wf_unique.
  - apply set_erase_wf, set_insert_wf, Hs.
  - exact Hs.
  - intros z. split; intros Hz.
    + pose proof (set_erase_gone x _ (set_insert_wf x s Hs)) as Hg.
      apply In_set_erase_sub in Hz as Hz'.
      apply In_set_insert in Hz' as [->|Hz']; [contradiction | exact Hz'].
    + apply In_set_erase_ne; [intros ->; contradiction|].
      apply In_set_insert. now right.
Qed.

(** ** The combination string *)

Lemma append_key_nonempty (acc k : string) :
  str_empty k = false -> str_empty (append_key acc k) = false.
Proof.
  intros Hk. unfold append_key. rewrite str_empty_append, Hk.
  apply andb_false_r.
Qed.

(** From a non-empty accumulator the loop appends every further key,
    each behind a separator. *)
Lemma fold_append_key (keys : list string) (acc : string) :
  str_empty acc = false ->
  Forall (fun k => str_empty k = false) keys ->
  fold_left append_key keys acc =
  match keys with
  | [] => acc
  | _ :: _ => acc +:+ " + " +:+ String.concat " + " keys
  end.
Proof.
  revert acc. induction keys as [|k ks IH]; intros acc Hacc Hall;
    [reflexivity|].
  apply List.Forall_cons_iff in Hall as [Hk Hks].
  cbn [fold_left]. rewrite IH; [| now apply append_key_nonempty | exact Hks].
  unfold append_key. rewrite Hacc. cbn [negb].
  destruct ks as [|k' ks].
  - cbn [String.concat]. now rewrite append_assoc.
  - cbn [String.concat]. now rewrite !append_assoc.
Qed.

Lemma build_combination_concat (keys : list string) :
  Forall (fun k => str_empty k = false) keys ->
  build_combination keys = String.concat " + " keys.
Proof.
  unfold build_combination. destruct keys as [|k ks]; intros Hall;
    [reflexivity|].
  apply List.Forall_cons_iff in Hall as [Hk Hks].
  cbn [fold_left]. unfold append_key at 2. cbn [str_empty negb].
  rewrite append_nil_l, fold_append_key by assumption.
  destruct ks; reflexivity.
Qed.

Lemma string_lt_nonempty (a b : string) : string_lt a b -> str_empty b = false.
Proof. unfold string_lt. destruct a, b; simpl; congruence. Qed.

(** In a well-formed set only the first element can be the empty string,
    and the loop passes over it without a separator. *)
Lemma build_combination_wf (s : list string) :
  set_wf s ->
  build_combination s = String.concat " + " (set_erase EmptyString s).
Proof.
  intros Hs. destruct s as [|y s]; [reflexivity|].
  apply StronglySorted_inv in Hs as [_ Hy].
  assert (Forall (fun k => str_empty k = false) s) as Hne.
  { rewrite List.Forall_forall in Hy. apply List.Forall_forall.
    intros z Hz. exact (string_lt_nonempty _ _ (Hy z Hz)). }
  destruct y as [|c y].
  - cbn [set_erase String.eqb]. unfold build_combination. cbn [fold_left].
    change (append_key EmptyString EmptyString) with EmptyString.
    now apply build_combination_concat.
  - rewrite set_erase_absent.
    + apply build_combination_concat. now constructor.
    + intros [H|H]; [discriminate|].
      rewrite List.Forall_forall in Hne. now specialize (Hne _ H).
Qed.

(** ** Upper-casing *)

Lemma toupper_idem (c : ascii) : toupper (toupper c) = toupper c.
Proof. destruct c as [[] [] [] [] [] [] [] []]; reflexivity. Qed.

Lemma toupper_not_lower (c : ascii) : islower (toupper c) = false.
Proof. destruct c as [[] [] [] [] [] [] [] []]; reflexivity. Qed.

Lemma toupper_fixed (c : ascii) : islower c = false -> toupper c = c.
Proof. unfold islower, toupper. now intros ->. Qed.

Lemma map_toupper_fixed (s : string) :
  already_uppercase s = true -> map_chars toupper s = s.
Proof.
  unfold already_uppercase. induction s as [|c s IH]; [reflexivity|].
  cbn [list_ascii_of_string forallb map_chars].
  intros H. apply andb_prop in H as [Hc Hs].
  apply negb_true_iff in Hc.
  now rewrite (toupper_fixed c Hc), IH.
Qed.

Lemma map_toupper_idem (s : string) :
  map_chars toupper (map_chars toupper s) = map_chars toupper s.
Proof.
  induction s as [|c s IH]; [reflexivity|].
  cbn [map_chars]. now rewrite toupper_idem, IH.
Qed.

Lemma fold_toupper (l : list ascii) (acc : string) :
  fold_left (fun acc c => acc +:+ String (toupper c) EmptyString) l acc =
  acc +:+ map_chars toupper (string_of_list_ascii l).
Proof.
  revert acc. induction l as [|c l IH]; intros acc; cbn [fold_left].
  - now rewrite append_nil_r.
  - rewrite IH, append_assoc. reflexivity.
Qed.

Lemma uppercase_combination_map (s : string) :
  uppercase_combination s = map_chars toupper s.
Proof.
  unfold uppercase_combination.
  now rewrite fold_toupper, append_nil_l, string_of_list_ascii_of_string.
Qed.

Lemma map_chars_length (f : ascii -> ascii) (s : string) :
  String.length (map_chars f s) = String.length s.
Proof. induction s as [|c s IH]; simpl; [reflexivity | now rewrite IH]. Qed.

(** ** What the state-changing functions leave alone *)

Lemma updateKeyCombination_activeKeys (st : State) :
  activeKeys (updateKeyCombination st) = activeKeys st.
Proof.
  unfold updateKeyCombination.
  destruct (set_empty (activeKeys st)); reflexivity.
Qed.

Lemma updateKeyCombination_specialKeyMap (st : State) :
  specialKeyMap (updateKeyCombination st) = specialKeyMap st.
Proof.
  unfold updateKeyCombination.
  destruct (set_empty (activeKeys st)); reflexivity.
Qed.

Lemma updateKeyCombination_quit (st : State) :
  quit (updateKeyCombination st) = quit st.
Proof.
  unfold updateKeyCombination.
  destruct (set_empty (activeKeys st)); reflexivity.
Qed.

Lemma updateKeyCombination_updated (st : State) :
  updated (updateKeyCombination st) = true.
Proof. reflexivity. Qed.

Lemma updateKeyCombination_screen (st : State) :
  screen (updateKeyCombination st) =
  if set_empty (activeKeys st) then screen st
  else mkFrame (center_y (term_height st))
               (center_x (term_width st)
                         (uppercase_combination (build_combination (activeKeys st))))
               (uppercase_combination (build_combination (activeKeys st)))
       :: screen st.
Proof.
  unfold updateKeyCombination.
  destruct (set_empty (activeKeys st)); reflexivity.
Qed.

(** ** The key set under press and release *)

Lemma addSpecialKey_activeKeys (name : string) (st : State) :
  activeKeys (addSpecialKey name st) = set_insert name (activeKeys st).
Proof. unfold addSpecialKey. now rewrite updateKeyCombination_activeKeys. Qed.

Lemma removeSpecialKey_activeKeys (name : string) (st : State) :
  activeKeys (removeSpecialKey name st) = set_erase name (activeKeys st).
Proof. unfold removeSpecialKey. now rewrite updateKeyCombination_activeKeys. Qed.

Lemma press_all_activeKeys (names : list string) (st : State) :
  activeKeys (press_all names st) =
  fold_left (fun s name => set_insert name s) names (activeKeys st).
Proof.
  unfold press_all. revert st. induction names as [|n names IH]; intros st;
    [reflexivity|].
  cbn [fold_left]. now rewrite IH, addSpecialKey_activeKeys.
Qed.

Lemma fold_insert_wf (names s : list string) :
  set_wf s -> set_wf (fold_left (fun s name => set_insert name s) names s).
Proof.
  revert s. induction names as [|n names IH]; intros s Hs; [exact Hs|].
  cbn [fold_left]. apply IH, set_insert_wf, Hs.
Qed.

Lemma In_fold_insert (names s : list string) (x : string) :
  In x (fold_left (fun s name => set_insert name s) names s) <->
  In x names \/ In x s.
Proof.
  revert s. induction names as [|n names IH]; intros s; cbn [fold_left].
  - simpl. tauto.
  - rewrite IH, In_set_insert. simpl. intuition congruence.
Qed.

Lemma set_wf_nil : set_wf [].
Proof. constructor. Qed.

(** C4: whatever the order in which a collection of (non-empty) display
    names is pressed, the key set ends up as the same strictly ascending
    sequence of exactly those names, and the combination string built from
    it is that sequence joined by [" + "]; pressing "B", "A" and "C" in any
    order gives ["A + B + C"]. *)
Theorem combination_sorted_join (names order : list string) (st : State) :
  activeKeys st = [] ->
  Forall (fun k => str_empty k = false) names ->
  Permutation names order ->
  let s := activeKeys (press_all order st) in
  s = activeKeys (press_all names st) /\
  StronglySorted string_lt s /\
  (forall x, In x s <-> In x names) /\
  build_combination s = String.concat " + " s /\
  (forall abc, Permutation ["B"; "A"; "C"] abc ->
     build_combination (activeKeys (press_all abc st)) = "A + B + C").
Proof.
  intros Hst Hne Hperm. cbn zeta.
  assert (Hmem : forall l x, In x (activeKeys (press_all l st)) <-> In x l).
  { intros l x. rewrite press_all_activeKeys, In_fold_insert, Hst.
    simpl. tauto. }
  assert (Hwf : forall l, set_wf (activeKeys (press_all l st))).
  { intros l. rewrite press_all_activeKeys, Hst.
    apply fold_insert_wf, set_wf_nil. }
  assert (Hindep : forall l1 l2, Permutation l1 l2 ->
            activeKeys (press_all l2 st) = activeKeys (press_all l1 st)).
  { intros l1 l2 Hp. apply set_wf_unique; [apply Hwf | apply Hwf |].
    intros x. rewrite !Hmem. split; intros Hx.
    - eapply Permutation_in; [apply Permutation_sym|]; eassumption.
    - eapply Permutation_in; eassumption. }
  repeat split.
  - now apply Hindep.
  - apply Hwf.
  - intros Hx. apply (proj1 (Hmem _ _)) in Hx.
    eapply Permutation_in; [apply Permutation_sym|]; eassumption.
  - intros Hx. apply (proj2 (Hmem _ _)). eapply Permutation_in; eassumption.
  - apply build_combination_concat. apply List.Forall_forall.
    intros k Hk. apply (proj1 (Hmem _ _)) in Hk.
    rewrite List.Forall_forall in Hne. apply Hne.
    eapply Permutation_in; [apply Permutation_sym|]; eassumption.
  - intros abc Habc. rewrite (Hindep _ _ Habc), press_all_activeKeys, Hst.
    reflexivity.
Qed.

Lemma combination_sorted_join_witness :
  activeKeys (initial_state 24 80) = [] /\
  Forall (fun k => str_empty k = false) ["CTRL"; "SHIFT"; "A"] /\
  Permutation ["CTRL"; "SHIFT"; "A"] ["A"; "SHIFT"; "CTRL"] /\
  build_combination
    (activeKeys (press_all ["A"; "SHIFT"; "CTRL"] (initial_state 24 80))) =
  String.concat " + "
    (activeKeys (press_all ["A"; "SHIFT"; "CTRL"] (initial_state 24 80))).
Proof.
  assert (Hp : Permutation ["CTRL"; "SHIFT"; "A"] ["A"; "SHIFT"; "CTRL"]).
  { eapply perm_trans; [apply perm_skip, perm_swap|].
    eapply perm_trans; [apply perm_swap|].
    apply perm_skip, perm_swap. }
  assert (Hn : Forall (fun k => str_empty k = false) ["CTRL"; "SHIFT"; "A"]).
  { repeat constructor. }
  split; [reflexivity|]. split; [exact Hn|]. split; [exact Hp|].
  exact (proj1 (proj2 (proj2 (proj2
    (combination_sorted_join ["CTRL"; "SHIFT"; "A"] ["A"; "SHIFT"; "CTRL"]
       (initial_state 24 80) eq_refl Hn Hp))))).
Defined.

(** C5: [showPressedKey] hands the renderer the combination string with
    every character upper-cased; upper-casing twice is upper-casing once,
    and a string without lower-case letters is returned unchanged. *)
Theorem rendered_text_uppercase (combination s : string) (st : State) :
  already_uppercase s = true ->
  (exists f, screen (showPressedKey combination st) = f :: screen st /\
             text f = map_chars toupper combination) /\
  uppercase_combination (uppercase_combination combination) =
    uppercase_combination combination /\
  already_uppercase (uppercase_combination combination) = true /\
  uppercase_combination s = s.
Proof.
  intros Hs. repeat split.
  - eexists. split; [reflexivity|]. simpl. apply uppercase_combination_map.
  - rewrite !uppercase_combination_map. apply map_toupper_idem.
  - rewrite uppercase_combination_map. unfold already_uppercase.
    induction combination as [|c t IH]; [reflexivity|].
    cbn [map_chars list_ascii_of_string forallb].
    now rewrite toupper_not_lower, IH.
  - rewrite uppercase_combination_map. now apply map_toupper_fixed.
Qed.

Lemma rendered_text_uppercase_witness :
  already_uppercase "CTRL + A" = true /\
  uppercase_combination "CTRL + A" = "CTRL + A".
Proof.
  split; [reflexivity|].
  exact (proj2 (proj2 (proj2
    (rendered_text_uppercase "Shift_L + a" "CTRL + A" (initial_state 24 80)
       eq_refl)))).
Defined.

(** C6: a release of a name that is not in the key set leaves the set as
    it is. *)
Theorem release_absent_unchanged (name : string) (st : State) :
  ~ In name (activeKeys st) ->
  activeKeys (removeSpecialKey name st) = activeKeys st.
Proof.
  intros Hn. rewrite removeSpecialKey_activeKeys. now apply set_erase_absent.
Qed.

Lemma release_absent_unchanged_witness :
  ~ In "A" (activeKeys (addSpecialKey "CTRL" (initial_state 24 80))) /\
  activeKeys (removeSpecialKey "A" (addSpecialKey "CTRL" (initial_state 24 80)))
  = ["CTRL"].
Proof.
  assert (H : ~ In "A" (activeKeys (addSpecialKey "CTRL" (initial_state 24 80)))).
  { vm_compute. intros [H|[]]. discriminate H. }
  split; [exact H|].
  exact (release_absent_unchanged "A"
           (addSpecialKey "CTRL" (initial_state 24 80)) H).
Defined.

(** ** Delivery to the renderer *)

(** C1, as the code has it: every press or release sets [updated]; the
    combination string is drawn (upper-cased) only when the key set is not
    empty after the change, which is always so after a press; when the set
    has become empty nothing is drawn and the screen keeps its frames. *)
Theorem apply_draws_when_nonempty (name : string) (isPress : bool) (st : State) :
  let st' := apply_event name isPress st in
  updated st' = true /\
  set_empty (activeKeys (apply_event name true st)) = false /\
  screen st' =
    if set_empty (activeKeys st') then screen st
    else
      let shown := uppercase_combination (build_combination (activeKeys st')) in
      mkFrame (center_y (term_height st)) (center_x (term_width st) shown) shown
      :: screen st.
Proof.
  cbn zeta. split; [destruct isPress; reflexivity|]. split.
  - cbn [apply_event]. rewrite addSpecialKey_activeKeys.
    apply set_insert_nonempty.
  - destruct isPress; cbn [apply_event].
    + rewrite addSpecialKey_activeKeys. unfold addSpecialKey.
      now rewrite updateKeyCombination_screen.
    + rewrite removeSpecialKey_activeKeys. unfold removeSpecialKey.
      now rewrite updateKeyCombination_screen.
Qed.

(** C1, refuted as stated: releasing the only held key empties the set,
    and no frame (in particular no empty text) reaches the renderer; the
    screen still shows the last combination. *)
Lemma release_last_key_draws_nothing :
  let held := apply_event "A" true (initial_state 24 80) in
  let released := apply_event "A" false held in
  activeKeys released = [] /\
  screen released = screen held /\
  map text (screen released) = ["A"] /\
  ~ (exists f, screen released = f :: screen held /\ text f = EmptyString).
Proof.
  cbn zeta. split; [reflexivity|]. split; [reflexivity|].
  split; [reflexivity|].
  intros [f [Hf _]]. vm_compute in Hf. discriminate Hf.
Qed.

(** ** Centering *)

Lemma to_int_small (z : Z) : - 2 ^ 31 <= z <= INT_MAX -> to_int z = z.
Proof.
  unfold to_int, wrap, INT_MAX. intros H.
  change (2 ^ (32 - 1)) with (2 ^ 31). change (2 ^ 32) with (2 * 2 ^ 31).
  rewrite Z.mod_small; lia.
Qed.

Lemma quot2_nonneg (z : Z) : 0 <= Z.quot z 2 <-> -1 <= z.
Proof. Z.to_euclidean_division_equations. lia. Qed.

(** C7, as the code has it: for a terminal size and a text length that fit
    an [int], the start row is half the height and never negative, and the
    start column is half of (width - length), rounded towards zero: it is
    non-negative exactly when the text is at most one character wider than
    the terminal, the empty text included; nothing clamps it otherwise. *)
Theorem centering_bounds (inputText : string) (st : State) :
  0 <= term_height st ->
  0 <= term_width st <= INT_MAX ->
  Z.of_nat (String.length inputText) <= INT_MAX ->
  exists f,
    screen (renderText inputText st) = f :: screen st /\
    text f = inputText /\
    start_y f = Z.quot (term_height st) 2 /\
    0 <= start_y f /\
    start_x f =
      Z.quot (term_width st - Z.of_nat (String.length inputText)) 2 /\
    (0 <= start_x f <->
     Z.of_nat (String.length inputText) <= term_width st + 1) /\
    0 <= center_x (term_width st) EmptyString.
Proof.
  intros Hh Hw Hl.
  assert (Hx : forall t, Z.of_nat (String.length t) <= INT_MAX ->
            center_x (term_width st) t =
            Z.quot (term_width st - Z.of_nat (String.length t)) 2).
  { intros t Ht. unfold center_x. cbn zeta.
    rewrite (to_int_small (Z.of_nat (String.length t)))
      by (unfold INT_MAX in *; lia).
    rewrite to_int_small by (unfold INT_MAX in *; lia). reflexivity. }
  eexists. split; [reflexivity|]. cbn [text start_y start_x].
  split; [reflexivity|]. split; [reflexivity|].
  split; [apply Z.quot_pos; lia|].
  split; [now apply Hx|]. split.
  - rewrite Hx by assumption. rewrite quot2_nonneg. lia.
  - rewrite Hx by (cbn; unfold INT_MAX; lia). apply quot2_nonneg. cbn. lia.
Qed.

Lemma centering_bounds_witness :
  0 <= term_height (initial_state 24 80) /\
  0 <= term_width (initial_state 24 80) <= INT_MAX /\
  Z.of_nat (String.length "CTRL + A") <= INT_MAX /\
  exists f,
    screen (renderText "CTRL + A" (initial_state 24 80)) = [f] /\
    start_y f = 12 /\ start_x f = 36.
Proof.
  assert (Hh : 0 <= term_height (initial_state 24 80)) by (cbn; lia).
  assert (Hw : 0 <= term_width (initial_state 24 80) <= INT_MAX)
    by (cbn; unfold INT_MAX; lia).
  assert (Hl : Z.of_nat (String.length "CTRL + A") <= INT_MAX)
    by (cbn; unfold INT_MAX; lia).
  split; [exact Hh|]. split; [exact Hw|]. split; [exact Hl|].
  destruct (centering_bounds "CTRL + A" (initial_state 24 80) Hh Hw Hl)
    as [f [Hs [_ [Hy [_ [Hx _]]]]]].
  exists f. split; [exact Hs|]. split; [exact Hy | exact Hx].
Defined.

(** C7, refuted as stated: on a terminal ten columns wide the sixteen
    characters of a mouse click are drawn from column -3. *)
Lemma wide_text_negative_column :
  let st := renderText "MOUSE LEFT CLICK" (initial_state 24 10) in
  map start_x (screen st) = [-3] /\
  ~ (forall inputText height width,
       0 <= height -> 0 <= width ->
       Forall (fun f => 0 <= start_x f /\ 0 <= start_y f)
              (screen (renderText inputText (initial_state height width)))).
Proof.
  cbn zeta. split; [reflexivity|].
  intros H.
  specialize (H "MOUSE LEFT CLICK"%string 24 10 ltac:(lia) ltac:(lia)).
  apply List.Forall_inv in H. vm_compute in H. destruct H as [H _].
  now apply H.
Qed.

(** ** Keys the X server has no name for *)

(** The guard of the handlers does its work when the name is an empty
    string: the event changes nothing. *)
Lemma empty_keysym_name_ignored
    (XkbKeycodeToKeysym : Z -> Z) (XKeysymToString : Z -> option string)
    (detail : Z) (st : State) :
  specialKeyMap st !! to_int (XkbKeycodeToKeysym detail) = None ->
  XKeysymToString (XkbKeycodeToKeysym detail) = Some EmptyString ->
  handleLinuxKeyPress XkbKeycodeToKeysym XKeysymToString detail st = Returns st /\
  handleLinuxKeyRelease XkbKeycodeToKeysym XKeysymToString detail st = Returns st.
Proof.
  intros Hmap Hname. unfold handleLinuxKeyPress, handleLinuxKeyRelease.
  cbn zeta. rewrite Hmap, Hname. split; reflexivity.
Qed.

(** C2, where the code falls short: when the keysym is not in
    [specialKeyMap] and [XKeysymToString] answers with a null pointer, both
    key handlers assign that pointer to a [std::string] before the guard
    against empty names is reached, and the process goes down. *)
Theorem unnamed_keysym_crashes
    (XkbKeycodeToKeysym : Z -> Z) (XKeysymToString : Z -> option string)
    (detail : Z) (st : State) :
  specialKeyMap st !! to_int (XkbKeycodeToKeysym detail) = None ->
  XKeysymToString (XkbKeycodeToKeysym detail) = None ->
  handleLinuxKeyPress XkbKeycodeToKeysym XKeysymToString detail st = Crashes /\
  handleLinuxKeyRelease XkbKeycodeToKeysym XKeysymToString detail st = Crashes.
Proof.
  intros Hmap Hname. unfold handleLinuxKeyPress, handleLinuxKeyRelease.
  cbn zeta. rewrite Hmap, Hname. split; reflexivity.
Qed.

(** A key code without a keysym ([NoSymbol], 0), which has no name. *)
Lemma unnamed_keysym_crashes_witness :
  let Xkb := fun _ : Z => 0 in
  let Xks := fun k : Z => if k =? 0 then None else Some "a"%string in
  let st := initializeKeyMappings (initial_state 24 80) in
  specialKeyMap st !! to_int (Xkb 255) = None /\
  Xks (Xkb 255) = None /\
  handleLinuxKeyPress Xkb Xks 255 st = Crashes /\
  handleLinuxKeyRelease Xkb Xks 255 st = Crashes.
Proof.
  cbn zeta. split; [reflexivity|]. split; [reflexivity|].
  exact (unnamed_keysym_crashes
           (fun _ : Z => 0)
           (fun k : Z => if k =? 0 then None else Some "a"%string)
           255 (initializeKeyMappings (initial_state 24 80))
           eq_refl eq_refl).
Defined.

(** ** The Windows mouse hook *)

Lemma In_set_insert_self (x : string) (s : list string) : In x (set_insert x s).
Proof. apply In_set_insert. now left. Qed.

Lemma mouse_up_erases_empty_name (wParam mouseData : Z) (st : State) :
  wParam = Win.WM_LBUTTONUP \/ wParam = Win.WM_MBUTTONUP
  \/ wParam = Win.WM_RBUTTONUP ->
  activeKeys (LowLevelMouseProc Win.HC_ACTION wParam mouseData st) =
  set_erase EmptyString (activeKeys st).
Proof.
  intros [-> | [-> | ->]];
    (etransitivity; [apply updateKeyCombination_activeKeys | reflexivity]).
Qed.

Lemma mouse_down_inserts (wParam mouseData : Z) (name : string) (st : State) :
  (wParam, name) = (Win.WM_LBUTTONDOWN, "MOUSE LEFT CLICK"%string)
  \/ (wParam, name) = (Win.WM_MBUTTONDOWN, "MOUSE MIDDLE CLICK"%string)
  \/ (wParam, name) = (Win.WM_RBUTTONDOWN, "MOUSE RIGHT CLICK"%string) ->
  activeKeys (LowLevelMouseProc Win.HC_ACTION wParam mouseData st) =
  set_insert name (activeKeys st).
Proof.
  intros [E | [E | E]]; injection E as -> ->;
    (etransitivity; [apply updateKeyCombination_activeKeys | reflexivity]).
Qed.

(** C3, where the code falls short: a button-up message leaves
    [buttonStr] empty, so the hook erases the empty string and the name
    that the button-down message inserted stays in the key set, for each of
    the three buttons and whatever else is held. *)
Theorem mouse_up_keeps_button (down up mouseData1 mouseData2 : Z)
    (name : string) (st : State) :
  (down, up, name) =
    (Win.WM_LBUTTONDOWN, Win.WM_LBUTTONUP, "MOUSE LEFT CLICK"%string)
  \/ (down, up, name) =
    (Win.WM_MBUTTONDOWN, Win.WM_MBUTTONUP, "MOUSE MIDDLE CLICK"%string)
  \/ (down, up, name) =
    (Win.WM_RBUTTONDOWN, Win.WM_RBUTTONUP, "MOUSE RIGHT CLICK"%string) ->
  let pressed := LowLevelMouseProc Win.HC_ACTION down mouseData1 st in
  let released := LowLevelMouseProc Win.HC_ACTION up mouseData2 pressed in
  In name (activeKeys pressed) /\ In name (activeKeys released).
Proof.
  intros H. cbn zeta.
  assert (Hdown : activeKeys (LowLevelMouseProc Win.HC_ACTION down mouseData1 st)
                  = set_insert name (activeKeys st)).
  { apply mouse_down_inserts.
    destruct H as [E | [E | E]]; injection E as -> -> ->; tauto. }
  assert (Hname : name <> EmptyString).
  { destruct H as [E | [E | E]]; injection E as -> -> ->; discriminate. }
  rewrite (mouse_up_erases_empty_name up mouseData2), Hdown.
  - split; [apply In_set_insert_self|].
    apply In_set_erase_ne; [exact Hname | apply In_set_insert_self].
  - destruct H as [E | [E | E]]; injection E as -> -> ->; tauto.
Qed.

Lemma mouse_up_keeps_button_witness :
  let pressed :=
    LowLevelMouseProc Win.HC_ACTION Win.WM_LBUTTONDOWN 0 (initial_state 24 80) in
  let released := LowLevelMouseProc Win.HC_ACTION Win.WM_LBUTTONUP 0 pressed in
  activeKeys released = ["MOUSE LEFT CLICK"%string] /\
  In "MOUSE LEFT CLICK"%string (activeKeys released).
Proof.
  cbn zeta. split; [reflexivity|].
  exact (proj2 (mouse_up_keeps_button
                  Win.WM_LBUTTONDOWN Win.WM_LBUTTONUP 0 0 "MOUSE LEFT CLICK"
                  (initial_state 24 80) (or_introl eq_refl))).
Defined.

(** ** Mouse buttons on the X11 path *)

Lemma length_set_insert_fresh (x : string) (s : list string) :
  ~ In x s -> length (set_insert x s) = S (length s).
Proof.
  induction s as [|y s IH]; intros Hx; [reflexivity|].
  cbn [set_insert].
  destruct (OrdersEx.String_as_OT.compare x y) eqn:E.
  - apply compare_Eq in E. subst. exfalso. apply Hx. now left.
  - reflexivity.
  - cbn [length]. rewrite IH; [reflexivity|].
    intros H. apply Hx. now right.
Qed.

Lemma button_press_unmapped (detail : Z) (st : State) :
  specialKeyMap st !! detail = None ->
  handleLinuxButtonPress detail st =
  updateKeyCombination
    (set_activeKeys (set_insert "Unknown Mouse Button" (activeKeys st)) st).
Proof. intros H. unfold handleLinuxButtonPress. now rewrite H. Qed.

Lemma button_release_unmapped (detail : Z) (st : State) :
  specialKeyMap st !! detail = None ->
  handleLinuxButtonRelease detail st =
  updateKeyCombination
    (set_activeKeys (set_erase "Unknown Mouse Button" (activeKeys st)) st).
Proof. intros H. unfold handleLinuxButtonRelease. now rewrite H. Qed.

Lemma handleLinuxButtonPress_specialKeyMap (detail : Z) (st : State) :
  specialKeyMap (handleLinuxButtonPress detail st) = specialKeyMap st.
Proof.
  unfold handleLinuxButtonPress. cbn zeta.
  destruct (negb _); [|reflexivity].
  now rewrite updateKeyCombination_specialKeyMap.
Qed.

Lemma handleLinuxButtonRelease_specialKeyMap (detail : Z) (st : State) :
  specialKeyMap (handleLinuxButtonRelease detail st) = specialKeyMap st.
Proof.
  unfold handleLinuxButtonRelease. cbn zeta.
  destruct (negb _); [|reflexivity].
  now rewrite updateKeyCombination_specialKeyMap.
Qed.

(** C10: two buttons that [specialKeyMap] does not list both resolve to
    "Unknown Mouse Button": after pressing both, the key set is the one
    after pressing the first, it holds the placeholder once, and a single
    release of either button takes the placeholder out again (giving back
    the set from before the presses when it did not hold the placeholder). *)
Theorem unmapped_buttons_share_placeholder (b1 b2 b : Z) (st : State) :
  set_wf (activeKeys st) ->
  specialKeyMap st !! b1 = None ->
  specialKeyMap st !! b2 = None ->
  b1 <> b2 ->
  b = b1 \/ b = b2 ->
  let placeholder := "Unknown Mouse Button"%string in
  let one := handleLinuxButtonPress b1 st in
  let both := handleLinuxButtonPress b2 one in
  let released := handleLinuxButtonRelease b both in
  activeKeys one = set_insert placeholder (activeKeys st) /\
  activeKeys both = activeKeys one /\
  count_occ string_dec (activeKeys both) placeholder = 1%nat /\
  ~ In placeholder (activeKeys released) /\
  (~ In placeholder (activeKeys st) ->
   length (activeKeys both) = S (length (activeKeys st)) /\
   activeKeys released = activeKeys st).
Proof.
  intros Hwf H1 H2 Hne Hb. cbn zeta.
  assert (Hb' : specialKeyMap st !! b = None) by (destruct Hb; now subst).
  pose proof (handleLinuxButtonPress_specialKeyMap b1 st) as M1.
  pose proof (handleLinuxButtonPress_specialKeyMap b2
                (handleLinuxButtonPress b1 st)) as M2.
  assert (E1 : activeKeys (handleLinuxButtonPress b1 st)
               = set_insert "Unknown Mouse Button" (activeKeys st)).
  { rewrite button_press_unmapped by assumption.
    apply updateKeyCombination_activeKeys. }
  assert (E2 : activeKeys (handleLinuxButtonPress b2 (handleLinuxButtonPress b1 st))
               = set_insert "Unknown Mouse Button" (activeKeys st)).
  { rewrite button_press_unmapped by (now rewrite M1).
    rewrite updateKeyCombination_activeKeys. cbn [activeKeys set_activeKeys].
    rewrite E1. apply set_insert_idem. }
  assert (E3 : activeKeys (handleLinuxButtonRelease b
                 (handleLinuxButtonPress b2 (handleLinuxButtonPress b1 st)))
               = set_erase "Unknown Mouse Button"
                   (set_insert "Unknown Mouse Button" (activeKeys st))).
  { rewrite button_release_unmapped by (now rewrite M2, M1).
    rewrite updateKeyCombination_activeKeys. cbn [activeKeys set_activeKeys].
    now rewrite E2. }
  pose proof (set_insert_wf "Unknown Mouse Button" _ Hwf) as Hwf'.
  split; [exact E1|]. split; [now rewrite E2, E1|]. split; [|split].
  - rewrite E2. apply NoDup_count_occ'.
    + clear -Hwf'. induction Hwf' as [|a l _ IH Ha]; constructor; [|exact IH].
      intros Hin. rewrite List.Forall_forall in Ha.
      exact (string_lt_irrefl a (Ha a Hin)).
    + apply In_set_insert_self.
  - rewrite E3. now apply set_erase_gone.
  - intros Hfresh. rewrite E2, E3. split.
    + now apply length_set_insert_fresh.
    + now apply set_erase_insert.
Qed.

Lemma unmapped_buttons_share_placeholder_witness :
  let st := addSpecialKey "CTRL" (initializeKeyMappings (initial_state 24 80)) in
  set_wf (activeKeys st) /\
  specialKeyMap st !! 8 = None /\
  specialKeyMap st !! 9 = None /\
  8 <> 9 /\
  (9 = 8 \/ 9 = 9) /\
  activeKeys (handleLinuxButtonPress 9 (handleLinuxButtonPress 8 st)) =
    ["CTRL"%string; "Unknown Mouse Button"%string] /\
  ~ In "Unknown Mouse Button"%string
       (activeKeys (handleLinuxButtonRelease 9
          (handleLinuxButtonPress 9 (handleLinuxButtonPress 8 st)))).
Proof.
  cbn zeta.
  assert (Hwf : set_wf (activeKeys
            (addSpecialKey "CTRL" (initializeKeyMappings (initial_state 24 80))))).
  { rewrite addSpecialKey_activeKeys. apply set_insert_wf, set_wf_nil. }
  assert (Hne : 8 <> 9) by lia.
  split; [exact Hwf|]. split; [reflexivity|]. split; [reflexivity|].
  split; [exact Hne|]. split; [now right|]. split; [reflexivity|].
  exact (proj1 (proj2 (proj2 (proj2
    (unmapped_buttons_share_placeholder 8 9 9
       (addSpecialKey "CTRL" (initializeKeyMappings (initial_state 24 80)))
       Hwf eq_refl eq_refl Hne (or_intror eq_refl)))))).
Defined.

(** ** The special-key table *)

Lemma initializeKeyMappings_table (st : State) :
  specialKeyMap st = ∅ -> specialKeyMap (initializeKeyMappings st) = key_table.
Proof.
  intros H. unfold initializeKeyMappings. cbn [specialKeyMap set_specialKeyMap].
  rewrite H. reflexivity.
Qed.

Lemma key_table_entries (k : Z) (v : string) :
  key_table !! k = Some v <-> In (k, v) special_keys.
Proof.
  unfold key_table. split; intros H.
  - apply elem_of_list_to_map_2 in H. now apply list_elem_of_In.
  - apply elem_of_list_to_map_1; [|now apply list_elem_of_In].
    eapply (bool_decide_unpack _). vm_compute. exact I.
Qed.

Lemma key_table_nonempty (k : Z) (v : string) :
  key_table !! k = Some v -> str_empty v = false.
Proof.
  intros H. apply key_table_entries in H. simpl in H.
  repeat (destruct H as [H|H]; [injection H as <- <-; reflexivity|]).
  destruct H.
Qed.

(** ** The event loop and the two threads *)

Section Loop.

Variable XkbKeycodeToKeysym : Z -> Z.
Variable XKeysymToString : Z -> option string.

Let dispatch' := dispatch XkbKeycodeToKeysym XKeysymToString.
Let step' := step XkbKeycodeToKeysym XKeysymToString.
Let run' := run XkbKeycodeToKeysym XKeysymToString.

(** No handler writes [specialKeyMap] or [quit]. *)
Lemma dispatch_keeps (opcode : Z) (e : XEvent) (st st' : State) :
  dispatch' opcode e st = Returns st' ->
  specialKeyMap st' = specialKeyMap st /\ quit st' = quit st.
Proof.
  unfold dispatch', dispatch, handleLinuxKeyPress, handleLinuxKeyRelease,
    handleLinuxButtonPress, handleLinuxButtonRelease.
  cbn zeta. intros H.
  repeat match type of H with
         | context [if ?b then _ else _] => destruct b
         | context [match ?o with Some _ => _ | None => _ end] => destruct o
         end;
    try discriminate H; injection H as <-;
    rewrite ?updateKeyCombination_specialKeyMap, ?updateKeyCombination_quit;
    split; reflexivity.
Qed.

Lemma step_table_invariant (a : action) (s s' : System) :
  table_invariant s -> step' a s = Some s' -> table_invariant s'.
Proof.
  destruct s as [g w m d]. unfold table_invariant, step', step.
  cbn [worker globals main_thread display_open]. intros Inv H.
  destruct a, w, m; try discriminate H;
    repeat match type of H with
           | context [if quit g then _ else _] => destruct (quit g)
           | context [match ?o with Returns _ => _ | Crashes => _ end] =>
               destruct o eqn:?
           end;
    try discriminate H; injection H as <-; cbn [worker globals];
    try assumption;
    try (left; tauto);
    try (right; assumption);
    try (right; apply initializeKeyMappings_table; tauto);
    try (apply initializeKeyMappings_table; tauto);
    try (destruct (_ =? _); cbn; tauto);
    try (match goal with
         | E : dispatch _ _ _ _ _ = Returns _ |- _ =>
             apply dispatch_keeps in E as [-> _]; assumption
         end).
Qed.

Lemma run_table_invariant (trace : list action) (s s' : System) :
  table_invariant s -> run' trace s = Some s' -> table_invariant s'.
Proof.
  revert s. induction trace as [|a trace IH]; intros s Inv H.
  - injection H as <-. exact Inv.
  - unfold run' in H. cbn [run] in H.
    destruct (step XkbKeycodeToKeysym XKeysymToString a s) as [s1|] eqn:E;
      [|discriminate H].
    apply (IH s1); [|exact H]. eapply step_table_invariant; eassumption.
Qed.

(** A step changes [specialKeyMap] only by leaving [W_entry]. *)
Lemma step_specialKeyMap (a : action) (s s' : System) :
  step' a s = Some s' ->
  specialKeyMap (globals s') = specialKeyMap (globals s)
  \/ (worker s = W_entry /\ worker s' <> W_entry /\
      globals s' = initializeKeyMappings (globals s)).
Proof.
  destruct s as [g w m d]. unfold step', step.
  cbn [worker globals main_thread display_open]. intros H.
  destruct a, w, m; try discriminate H;
    repeat match type of H with
           | context [if quit g then _ else _] => destruct (quit g)
           | context [match ?o with Returns _ => _ | Crashes => _ end] =>
               destruct o eqn:?
           end;
    try discriminate H; injection H as <-; cbn [worker globals];
    try (right; split; [reflexivity | split; [discriminate | reflexivity]]);
    try (left; reflexivity);
    try (left; destruct (_ =? _); reflexivity);
    try (left; match goal with
               | E : dispatch _ _ _ _ _ = Returns _ |- _ =>
                   apply dispatch_keeps in E as [-> _]; reflexivity
               end).
Qed.

(** The worker never comes back to its entry. *)
Lemma step_leaves_entry (a : action) (s s' : System) :
  step' a s = Some s' -> worker s <> W_entry -> worker s' <> W_entry.
Proof.
  destruct s as [g w m d]. unfold step', step.
  cbn [worker globals main_thread display_open]. intros H.
  destruct a, w, m; try discriminate H;
    repeat match type of H with
           | context [if quit g then _ else _] => destruct (quit g)
           | context [match ?o with Returns _ => _ | Crashes => _ end] =>
               destruct o eqn:?
           end;
    try discriminate H; injection H as <-; cbn [worker globals];
    intros Hw; congruence.
Qed.

(** An event is handled only by a worker blocked in [XNextEvent]. *)
Lemma event_step_waits (e : XEvent) (s s' : System) :
  step' (A_event e) s = Some s' -> exists opcode, worker s = W_wait opcode.
Proof.
  destruct s as [g w m d]. unfold step', step.
  cbn [worker globals main_thread display_open]. intros H.
  destruct w; try discriminate H. eauto.
Qed.

End Loop.

Lemma initial_table_invariant (height width : Z) :
  table_invariant (initial_system height width).
Proof. repeat split. Qed.

Lemma key_table_not_empty : key_table <> ∅.
Proof.
  intros E. apply (f_equal (fun m : gmap Z string => m !! 1)) in E.
  discriminate E.
Qed.

(** Once the worker has left its entry, the map stays as it is and the
    display is not opened again. *)
Lemma run_after_entry
    (XkbKeycodeToKeysym : Z -> Z) (XKeysymToString : Z -> option string)
    (trace : list action) (s0 s : System) :
  worker s0 <> W_entry ->
  run XkbKeycodeToKeysym XKeysymToString trace s0 = Some s ->
  specialKeyMap (globals s) = specialKeyMap (globals s0)
  /\ existsb opens_display trace = false.
Proof.
  revert s0. induction trace as [|a trace IH]; intros s0 Hw H.
  - injection H as <-. split; reflexivity.
  - cbn [run] in H.
    destruct (step XkbKeycodeToKeysym XKeysymToString a s0) as [s1|] eqn:E;
      [|discriminate H].
    pose proof (step_leaves_entry _ _ _ _ _ E Hw) as Hw1.
    destruct (IH s1 Hw1 H) as [Hm Ho].
    destruct (step_specialKeyMap _ _ _ _ _ E) as [Hk | (Hw' & _)];
      [|contradiction].
    split; [congruence|]. cbn [existsb]. rewrite Ho, orb_false_r.
    destruct s0 as [g w m d]. cbn [worker] in Hw. unfold step in E.
    cbn [worker globals main_thread] in E.
    destruct a; try reflexivity; destruct w; try discriminate E; congruence.
Qed.

(** From the entry, the map ends up as the table exactly when the run
    opens the display. *)
Lemma run_from_entry
    (XkbKeycodeToKeysym : Z -> Z) (XKeysymToString : Z -> option string)
    (trace : list action) (s0 s : System) :
  worker s0 = W_entry ->
  specialKeyMap (globals s0) = ∅ ->
  run XkbKeycodeToKeysym XKeysymToString trace s0 = Some s ->
  specialKeyMap (globals s) =
  if existsb opens_display trace then key_table else ∅.
Proof.
  revert s0. induction trace as [|a trace IH]; intros s0 Hw Hm H.
  - injection H as <-. exact Hm.
  - cbn [run] in H.
    destruct (step XkbKeycodeToKeysym XKeysymToString a s0) as [s1|] eqn:E;
      [|discriminate H].
    cbn [existsb].
    destruct s0 as [g w m d]. cbn [worker globals] in Hw, Hm. subst w.
    unfold step in E. cbn [worker globals main_thread display_open] in E.
    destruct a; try discriminate E; cbn [opens_display orb].
    + injection E as <-.
      apply run_after_entry in H as [Hk Ho]; [|cbn [worker]; discriminate].
      rewrite Hk, Ho. exact Hm.
    + injection E as <-.
      apply run_after_entry in H as [Hk _]; [|cbn [worker]; discriminate].
      rewrite Hk. now apply initializeKeyMappings_table.
    + injection E as <-.
      apply run_after_entry in H as [Hk _]; [|cbn [worker]; discriminate].
      rewrite Hk. now apply initializeKeyMappings_table.
    + destruct m; try discriminate E. destruct (quit g); [discriminate E|].
      injection E as <-. eapply IH; [| |exact H]; [reflexivity|].
      cbn [globals]. destruct (ch =? 113); exact Hm.
    + destruct m; try discriminate E. destruct (quit g); [|discriminate E].
      injection E as <-. eapply IH; [| |exact H]; [reflexivity | exact Hm].
Qed.

(** C9, as the code has it: [specialKeyMap] is written at most once, by
    the worker's start-up, taken from its entry (with no key recorded and
    nothing drawn yet) after the display has been opened, and never again.
    After a run it is exactly the table of Page Up, Page Down, Home, End and
    the five mouse codes if the run has opened the display, and still empty
    if it has not (no event is handled then); every name in the table is
    non-empty, an event is only ever handled with the table in place, and
    every step but the start-up leaves the map as it is. *)
Theorem special_key_map_fixed
    (XkbKeycodeToKeysym : Z -> Z) (XKeysymToString : Z -> option string)
    (height width : Z) (trace : list action) (a : action) (s s' : System) :
  run XkbKeycodeToKeysym XKeysymToString trace (initial_system height width)
    = Some s ->
  step XkbKeycodeToKeysym XKeysymToString a s = Some s' ->
  (forall k v, key_table !! k = Some v <-> In (k, v) special_keys) /\
  (forall k v, key_table !! k = Some v -> str_empty v = false) /\
  (specialKeyMap (globals s) = ∅ \/ specialKeyMap (globals s) = key_table) /\
  (is_event a = true -> specialKeyMap (globals s) = key_table) /\
  (specialKeyMap (globals s') = specialKeyMap (globals s)
   \/ (worker s = W_entry /\ worker s' <> W_entry
       /\ activeKeys (globals s) = [] /\ screen (globals s) = []
       /\ specialKeyMap (globals s) = ∅
       /\ specialKeyMap (globals s') = key_table)) /\
  (worker s <> W_entry ->
   worker s' <> W_entry
   /\ specialKeyMap (globals s') = specialKeyMap (globals s)) /\
  (specialKeyMap (globals s) = key_table
   <-> existsb opens_display trace = true) /\
  (specialKeyMap (globals s) = ∅
   <-> existsb opens_display trace = false) /\
  (opens_display a = true ->
   worker s = W_entry /\ existsb opens_display trace = false).
Proof.
  intros Hrun Hstep.
  pose proof (run_table_invariant _ _ _ _ _
                (initial_table_invariant height width) Hrun) as Inv.
  pose proof (step_table_invariant _ _ _ _ _ Inv Hstep) as Inv'.
  pose proof (step_specialKeyMap _ _ _ _ _ Hstep) as Hmap.
  pose proof (run_from_entry _ _ trace (initial_system height width) s
                (eq_refl W_entry) (eq_refl (∅ : gmap Z string)) Hrun) as Hopen.
  split; [exact key_table_entries|]. split; [exact key_table_nonempty|].
  split; [|split; [|split; [|split; [|split; [|split]]]]].
  - unfold table_invariant in Inv. destruct (worker s); tauto.
  - intros Ha. destruct a; try discriminate Ha.
    destruct (event_step_waits _ _ _ _ _ Hstep) as [opcode Hw].
    unfold table_invariant in Inv. now rewrite Hw in Inv.
  - destruct Hmap as [Hmap | (Hw & Hw' & Hg)]; [now left | right].
    unfold table_invariant in Inv. rewrite Hw in Inv.
    destruct Inv as (Hm & Hk & Hs).
    repeat split; try assumption.
    rewrite Hg. now apply initializeKeyMappings_table.
  - intros Hw. split; [exact (step_leaves_entry _ _ _ _ _ Hstep Hw)|].
    destruct Hmap as [Hmap | (Hw' & _)]; [exact Hmap | contradiction].
  - rewrite Hopen. destruct (existsb opens_display trace);
      split; try reflexivity; try discriminate;
      try (intros E; symmetry in E; now apply key_table_not_empty in E).
  - rewrite Hopen. destruct (existsb opens_display trace);
      split; try reflexivity; try discriminate;
      try (intros E; now apply key_table_not_empty in E).
  - intros Ha.
    assert (Hw : worker s = W_entry).
    { destruct s as [g w m d]. unfold step in Hstep.
      cbn [worker globals main_thread] in *.
      destruct a; try discriminate Ha; destruct w; try discriminate Hstep;
        reflexivity. }
    split; [exact Hw|].
    unfold table_invariant in Inv. rewrite Hw in Inv.
    destruct Inv as (Hm & _). rewrite Hopen in Hm.
    destruct (existsb opens_display trace); [|reflexivity].
    now apply key_table_not_empty in Hm.
Qed.

Lemma special_key_map_fixed_witness :
  let Xkb := fun _ : Z => 97 in
  let Xks := fun _ : Z => Some "a"%string in
  let s := mkSystem (initializeKeyMappings (initial_state 24 80))
                    (W_wait 131) M_loop true in
  let s' := mkSystem (addSpecialKey "a" (initializeKeyMappings (initial_state 24 80)))
                     (W_loop 131) M_loop true in
  run Xkb Xks [A_connected 131; A_enter_wait] (initial_system 24 80) = Some s /\
  step Xkb Xks (A_event (mkXEvent 35 131 2 38)) s = Some s' /\
  specialKeyMap (globals s) = key_table /\
  specialKeyMap (globals s') = specialKeyMap (globals s).
Proof.
  cbn zeta.
  assert (Hrun : run (fun _ : Z => 97) (fun _ : Z => Some "a"%string)
                   [A_connected 131; A_enter_wait] (initial_system 24 80)
                 = Some (mkSystem (initializeKeyMappings (initial_state 24 80))
                                  (W_wait 131) M_loop true))
    by reflexivity.
  assert (Hstep : step (fun _ : Z => 97) (fun _ : Z => Some "a"%string)
                    (A_event (mkXEvent 35 131 2 38))
                    (mkSystem (initializeKeyMappings (initial_state 24 80))
                              (W_wait 131) M_loop true)
                  = Some (mkSystem
                            (addSpecialKey "a"
                               (initializeKeyMappings (initial_state 24 80)))
                            (W_loop 131) M_loop true))
    by reflexivity.
  split; [exact Hrun|]. split; [exact Hstep|].
  pose proof (special_key_map_fixed _ _ _ _ _ _ _ _ Hrun Hstep)
    as (_ & _ & _ & Hev & _ & Hkeep & _).
  split; [exact (Hev eq_refl)|].
  apply Hkeep. discriminate.
Defined.

(** C9, refuted as stated: when [XOpenDisplay] fails the worker returns
    before [initializeKeyMappings]; the program then runs to its exit with
    [specialKeyMap] never populated. *)
Lemma failed_open_leaves_map_empty :
  let Xkb := fun _ : Z => 97 in
  let Xks := fun _ : Z => Some "a"%string in
  exists s,
    run Xkb Xks [A_open_failed; A_getch 113; A_main_leave; A_join]
        (initial_system 24 80) = Some s /\
    main_thread s = M_exited /\
    specialKeyMap (globals s) = ∅ /\
    specialKeyMap (globals s) <> key_table /\
    specialKeyMap (globals s) !! X11.XK_Page_Up = None.
Proof.
  cbn zeta. eexists. split; [reflexivity|].
  split; [reflexivity|]. split; [reflexivity|]. split; [|reflexivity].
  cbn [globals specialKeyMap set_quit initial_state].
  intros E. symmetry in E. now apply key_table_not_empty in E.
Qed.

(** ** Shutdown *)

(** No step of the main thread closes the display or moves the worker. *)
Lemma main_steps_keep_connection
    (XkbKeycodeToKeysym : Z -> Z) (XKeysymToString : Z -> option string)
    (a : action) (s s' : System) :
  step XkbKeycodeToKeysym XKeysymToString a s = Some s' ->
  actor a = Main ->
  worker s' = worker s /\ display_open s' = display_open s.
Proof.
  destruct s as [g w m d]. unfold step.
  cbn [worker globals main_thread display_open]. intros H Ha.
  destruct a; try discriminate Ha; destruct w, m; try discriminate H;
    repeat match type of H with
           | context [if quit g then _ else _] => destruct (quit g)
           end;
    try discriminate H; injection H as <-; split; reflexivity.
Qed.

(** A worker blocked in [XNextEvent] moves only when an event arrives. *)
Lemma waiting_worker_needs_event
    (XkbKeycodeToKeysym : Z -> Z) (XKeysymToString : Z -> option string)
    (a : action) (s s' : System) (opcode : Z) :
  worker s = W_wait opcode ->
  step XkbKeycodeToKeysym XKeysymToString a s = Some s' ->
  actor a = Worker ->
  is_event a = true.
Proof.
  destruct s as [g w m d]. unfold step.
  cbn [worker globals main_thread display_open]. intros -> H Ha.
  destruct a; try discriminate Ha; try discriminate H; reflexivity.
Qed.

(** Without a further X event the blocked worker stays where it is and
    the display is left as it is, however many steps are taken. *)
Lemma blocked_until_event
    (XkbKeycodeToKeysym : Z -> Z) (XKeysymToString : Z -> option string)
    (trace : list action) (s s' : System) (opcode : Z) :
  worker s = W_wait opcode ->
  forallb (fun a => negb (is_event a)) trace = true ->
  run XkbKeycodeToKeysym XKeysymToString trace s = Some s' ->
  worker s' = W_wait opcode /\ display_open s' = display_open s
  /\ Forall (fun a => actor a = Main) trace.
Proof.
  revert s. induction trace as [|a trace IH]; intros s Hw Hall H.
  - injection H as <-. repeat split; [exact Hw | constructor].
  - cbn [forallb] in Hall. apply andb_prop in Hall as [Ha Hall].
    cbn [run] in H.
    destruct (step XkbKeycodeToKeysym XKeysymToString a s) as [s1|] eqn:E;
      [|discriminate H].
    assert (Hmain : actor a = Main).
    { destruct (actor a) eqn:Hact; [reflexivity|].
      rewrite (waiting_worker_needs_event _ _ _ _ _ _ Hw E Hact) in Ha.
      discriminate Ha. }
    destruct (main_steps_keep_connection _ _ _ _ _ E Hmain) as [Hw1 Hd1].
    rewrite Hw in Hw1.
    destruct (IH s1 Hw1 Hall H) as (Hw' & Hd' & Hm').
    split; [exact Hw'|]. split; [congruence|]. constructor; assumption.
Qed.

(** A crashed worker stays crashed, with the display as it was. *)
Lemma crashed_worker_stays
    (XkbKeycodeToKeysym : Z -> Z) (XKeysymToString : Z -> option string)
    (trace : list action) (s s' : System) :
  worker s = W_crashed ->
  run XkbKeycodeToKeysym XKeysymToString trace s = Some s' ->
  worker s' = W_crashed /\ display_open s' = display_open s.
Proof.
  revert s. induction trace as [|a trace IH]; intros s Hw H.
  - injection H as <-. split; [exact Hw | reflexivity].
  - cbn [run] in H.
    destruct (step XkbKeycodeToKeysym XKeysymToString a s) as [s1|] eqn:E;
      [|discriminate H].
    assert (Hmain : actor a = Main).
    { destruct s as [g w m d]. cbn [worker] in Hw. subst w. unfold step in E.
      cbn [worker globals main_thread] in E.
      destruct a; try discriminate E; reflexivity. }
    destruct (main_steps_keep_connection _ _ _ _ _ E Hmain) as [Hw1 Hd1].
    rewrite Hw in Hw1. destruct (IH s1 Hw1 H) as [Hw' Hd'].
    split; [exact Hw' | congruence].
Qed.

(** [join] returns only for a worker that has returned. *)
Lemma join_needs_returned_worker
    (XkbKeycodeToKeysym : Z -> Z) (XKeysymToString : Z -> option string)
    (s s' : System) :
  step XkbKeycodeToKeysym XKeysymToString A_join s = Some s' ->
  worker s = W_returned /\ main_thread s = M_join /\ main_thread s' = M_exited.
Proof.
  destruct s as [g w m d]. unfold step.
  cbn [worker globals main_thread display_open]. intros H.
  destruct w, m; try discriminate H. injection H as <-.
  repeat split.
Qed.

(** C8, as the code has it: when [quit] is set while the worker is blocked
    in [XNextEvent], the worker stays blocked and the display is left as it
    is until the X server delivers one more event: until then only steps of the main
    thread are possible, none of them closes the display or moves the
    worker, and [join] cannot return.  When the next event is handled
    without a crash, the worker sees [quit], cannot wait again, closes the
    display itself and returns, and only then does [join] return to a
    [main] that waits in it.  When the handler of that event crashes, the
    worker never returns and [join] never does. *)
Theorem shutdown_waits_for_next_event
    (XkbKeycodeToKeysym : Z -> Z) (XKeysymToString : Z -> option string)
    (s : System) (opcode : Z) (e : XEvent) :
  worker s = W_wait opcode ->
  quit (globals s) = true ->
  (forall a s1,
     step XkbKeycodeToKeysym XKeysymToString a s = Some s1 ->
     match actor a with
     | Worker => is_event a = true
     | Main => worker s1 = worker s /\ display_open s1 = display_open s
     end) /\
  (forall trace s1,
     forallb (fun a => negb (is_event a)) trace = true ->
     run XkbKeycodeToKeysym XKeysymToString trace s = Some s1 ->
     worker s1 = W_wait opcode /\ display_open s1 = display_open s
     /\ Forall (fun a => actor a = Main) trace
     /\ step XkbKeycodeToKeysym XKeysymToString A_join s1 = None) /\
  (forall s0 s1,
     step XkbKeycodeToKeysym XKeysymToString A_join s0 = Some s1 ->
     worker s0 = W_returned) /\
  match dispatch XkbKeycodeToKeysym XKeysymToString opcode e (globals s) with
  | Returns g' =>
      exists s1 s2,
        step XkbKeycodeToKeysym XKeysymToString (A_event e) s = Some s1 /\
        worker s1 = W_loop opcode /\
        step XkbKeycodeToKeysym XKeysymToString A_enter_wait s1 = None /\
        step XkbKeycodeToKeysym XKeysymToString A_join s1 = None /\
        step XkbKeycodeToKeysym XKeysymToString A_worker_exit s1 = Some s2 /\
        worker s2 = W_returned /\ display_open s2 = false /\
        globals s2 = g' /\ main_thread s2 = main_thread s /\
        (main_thread s = M_join ->
         exists s3,
           step XkbKeycodeToKeysym XKeysymToString A_join s2 = Some s3 /\
           main_thread s3 = M_exited /\ display_open s3 = false)
  | Crashes =>
      exists s1,
        step XkbKeycodeToKeysym XKeysymToString (A_event e) s = Some s1 /\
        worker s1 = W_crashed /\ display_open s1 = display_open s /\
        (forall trace s2,
           run XkbKeycodeToKeysym XKeysymToString trace s1 = Some s2 ->
           worker s2 = W_crashed /\ display_open s2 = display_open s
           /\ step XkbKeycodeToKeysym XKeysymToString A_join s2 = None)
  end.
Proof.
  intros Hw Hq. split; [|split; [|split]].
  - intros a s1 Hstep. destruct (actor a) eqn:Ha.
    + eapply main_steps_keep_connection; eassumption.
    + eapply waiting_worker_needs_event; eassumption.
  - intros trace s1 Hall Hrun.
    destruct (blocked_until_event _ _ _ _ _ _ Hw Hall Hrun) as (H1 & H2 & H3).
    repeat split; try assumption.
    destruct s1 as [g1 w1 m1 d1]. cbn [worker] in H1. subst w1. reflexivity.
  - intros s0 s1 H. now apply join_needs_returned_worker in H.
  - destruct (dispatch XkbKeycodeToKeysym XKeysymToString opcode e (globals s))
      as [g'|] eqn:Hd.
    + pose proof (dispatch_keeps _ _ _ _ _ _ Hd) as [_ Hq'].
      rewrite Hq in Hq'.
      destruct s as [g w m d]. cbn [worker globals main_thread] in *. subst w.
      exists (mkSystem g' (W_loop opcode) m d).
      exists (mkSystem g' W_returned m false).
      unfold step. cbn [worker globals main_thread display_open].
      rewrite Hd, Hq'. repeat split; try reflexivity.
      intros ->. eexists. repeat split.
    + destruct s as [g w m d]. cbn [worker globals main_thread] in *. subst w.
      exists (mkSystem g W_crashed m d).
      unfold step at 1. cbn [worker globals main_thread display_open].
      rewrite Hd. repeat split.
      * eapply crashed_worker_stays; [|eassumption]. reflexivity.
      * cbn [display_open].
        eapply (crashed_worker_stays _ _ trace (mkSystem g W_crashed m d));
          [reflexivity | eassumption].
      * assert (Hc : worker s2 = W_crashed)
          by (eapply crashed_worker_stays; [|eassumption]; reflexivity).
        destruct s2 as [g2 w2 m2 d2]. cbn [worker] in Hc. subst w2.
        reflexivity.
Qed.

Lemma shutdown_waits_for_next_event_witness :
  let Xkb := fun _ : Z => 113 in
  let Xks := fun _ : Z => Some "q"%string in
  let s := mkSystem (set_quit true
                       (addSpecialKey "q"
                          (initializeKeyMappings (initial_state 24 80))))
                    (W_wait 131) M_join true in
  let release_q := mkXEvent 35 131 3 24 in
  worker s = W_wait 131 /\
  quit (globals s) = true /\
  dispatch Xkb Xks 131 release_q (globals s)
    = Returns (removeSpecialKey "q" (globals s)) /\
  step Xkb Xks A_join s = None /\
  exists s1 s2 s3,
    step Xkb Xks (A_event release_q) s = Some s1 /\
    step Xkb Xks A_worker_exit s1 = Some s2 /\
    worker s2 = W_returned /\ display_open s2 = false /\
    step Xkb Xks A_join s2 = Some s3 /\ main_thread s3 = M_exited.
Proof.
  cbn zeta.
  split; [reflexivity|]. split; [reflexivity|]. split; [reflexivity|].
  pose proof (shutdown_waits_for_next_event
                (fun _ : Z => 113) (fun _ : Z => Some "q"%string)
                (mkSystem (set_quit true
                             (addSpecialKey "q"
                                (initializeKeyMappings (initial_state 24 80))))
                          (W_wait 131) M_join true)
                131 (mkXEvent 35 131 3 24) eq_refl eq_refl)
    as (_ & Hblocked & _ & Hnext).
  split; [exact (proj2 (proj2 (proj2 (Hblocked [] _ eq_refl eq_refl))))|].
  change (dispatch (fun _ : Z => 113) (fun _ : Z => Some "q"%string) 131
            (mkXEvent 35 131 3 24)
            (globals
               (mkSystem
                  (set_quit true
                     (addSpecialKey "q"
                        (initializeKeyMappings (initial_state 24 80))))
                  (W_wait 131) M_join true)))
    with (Returns
            (removeSpecialKey "q"
               (set_quit true
                  (addSpecialKey "q"
                     (initializeKeyMappings (initial_state 24 80))))))
    in Hnext.
  destruct Hnext as (s1 & s2 & H1 & _ & _ & _ & H2 & H3 & H4 & _ & _ & Hjoin).
  destruct (Hjoin eq_refl) as (s3 & H5 & H6 & _).
  exists s1, s2, s3. repeat split; assumption.
Defined.

(** C8, refuted as stated: the worker connects and blocks in
    [XNextEvent]; [main] reads [q], sets [quit] and goes to [join].  The
    flag is now set, the display is still open, and the only step the
    program can take is the handling of one more X event: the main thread
    does nothing to end the wait, and the worker does not return. *)
Lemma blocked_worker_is_not_woken :
  let Xkb := fun _ : Z => 113 in
  let Xks := fun _ : Z => Some "q"%string in
  exists s,
    run Xkb Xks [A_connected 131; A_enter_wait; A_getch 113; A_main_leave]
        (initial_system 24 80) = Some s /\
    quit (globals s) = true /\
    worker s = W_wait 131 /\
    main_thread s = M_join /\
    display_open s = true /\
    (forall a s', step Xkb Xks a s = Some s' -> is_event a = true) /\
    ~ (exists a s', actor a = Main /\ step Xkb Xks a s = Some s').
Proof.
  cbn zeta. eexists. split; [reflexivity|].
  split; [reflexivity|]. split; [reflexivity|]. split; [reflexivity|].
  split; [reflexivity|]. split.
  - intros a s' H. destruct a; try discriminate H. reflexivity.
  - intros (a & s' & Ha & H). destruct a; discriminate.
Qed.

(** ** The key set in the states the program reaches *)

Lemma keys_ok_insert (k : string) (s : list string) :
  str_empty k = false ->
  keys_ok s -> keys_ok (set_insert k s).
Proof.
  intros Hk [Hwf Hne]. split; [now apply set_insert_wf|].
  intros H. apply In_set_insert in H as [H|H]; [|contradiction].
  subst k. discriminate Hk.
Qed.

Lemma keys_ok_erase (k : string) (s : list string) :
  keys_ok s -> keys_ok (set_erase k s).
Proof.
  intros [Hwf Hne]. split; [now apply set_erase_wf|].
  intros H. apply In_set_erase_sub in H. contradiction.
Qed.

Lemma dispatch_keys_ok
    (XkbKeycodeToKeysym : Z -> Z) (XKeysymToString : Z -> option string)
    (opcode : Z) (e : XEvent) (st st' : State) :
  dispatch XkbKeycodeToKeysym XKeysymToString opcode e st = Returns st' ->
  keys_ok (activeKeys st) -> keys_ok (activeKeys st').
Proof.
  unfold dispatch, handleLinuxKeyPress, handleLinuxKeyRelease,
    handleLinuxButtonPress, handleLinuxButtonRelease.
  cbn zeta. intros H Hok.
  repeat match type of H with
         | context [if negb (str_empty ?k) then _ else _] =>
             destruct (str_empty k) eqn:?; cbn [negb] in H
         | context [if ?b then _ else _] => destruct b
         | context [match ?o with Some _ => _ | None => _ end] => destruct o
         end;
    try discriminate H; injection H as <-;
    rewrite ?updateKeyCombination_activeKeys; cbn [activeKeys set_activeKeys];
    auto using keys_ok_insert, keys_ok_erase.
Qed.

Lemma step_keys_ok
    (XkbKeycodeToKeysym : Z -> Z) (XKeysymToString : Z -> option string)
    (a : action) (s s' : System) :
  step XkbKeycodeToKeysym XKeysymToString a s = Some s' ->
  keys_ok (activeKeys (globals s)) -> keys_ok (activeKeys (globals s')).
Proof.
  destruct s as [g w m d]. unfold step.
  cbn [worker globals main_thread display_open]. intros H Hok.
  destruct a, w, m; try discriminate H;
    repeat match type of H with
           | context [if quit g then _ else _] => destruct (quit g)
           | context [match ?o with Returns _ => _ | Crashes => _ end] =>
               destruct o eqn:?
           end;
    try discriminate H; injection H as <-; cbn [globals];
    try assumption;
    try (destruct (_ =? _); assumption);
    eapply dispatch_keys_ok; eassumption.
Qed.

(** Whatever the X server sends, the key set stays strictly ascending and
    free of empty names, so the combination string is the plain join. *)
Lemma reachable_combination_is_join
    (XkbKeycodeToKeysym : Z -> Z) (XKeysymToString : Z -> option string)
    (height width : Z) (trace : list action) (s : System) :
  run XkbKeycodeToKeysym XKeysymToString trace (initial_system height width)
    = Some s ->
  keys_ok (activeKeys (globals s)) /\
  build_combination (activeKeys (globals s)) =
    String.concat " + " (activeKeys (globals s)).
Proof.
  assert (Hgen : forall s0, keys_ok (activeKeys (globals s0)) ->
            run XkbKeycodeToKeysym XKeysymToString trace s0 = Some s ->
            keys_ok (activeKeys (globals s))).
  { induction trace as [|a trace IH]; intros s0 Hok H.
    - injection H as <-. exact Hok.
    - cbn [run] in H.
      destruct (step XkbKeycodeToKeysym XKeysymToString a s0) as [s1|] eqn:E;
        [|discriminate H].
      apply (IH s1); [|exact H]. eapply step_keys_ok; eassumption. }
  intros H.
  assert (Hok : keys_ok (activeKeys (globals s))).
  { apply (Hgen (initial_system height width)); [|exact H].
    split; [apply set_wf_nil | intros []]. }
  split; [exact Hok|].
  rewrite build_combination_wf by apply Hok.
  f_equal. apply set_erase_absent, Hok.
Qed.

(** ** The scenarios of the specification, run on the model *)

Example chord_ctrl_shift_a :
  map text (screen (press_all ["CTRL"; "SHIFT"; "A"] (initial_state 24 80)))
  = ["A + CTRL + SHIFT"; "CTRL + SHIFT"; "CTRL"]%string.
Proof. reflexivity. Qed.

Example names_are_shown_in_upper_case :
  map text (screen (handleLinuxButtonPress 8
                      (addSpecialKey "Shift_L"
                         (initializeKeyMappings (initial_state 24 80)))))
  = ["SHIFT_L + UNKNOWN MOUSE BUTTON"; "SHIFT_L"]%string.
Proof. reflexivity. Qed.

Example wheel_up_then_left_click :
  activeKeys
    (LowLevelMouseProc Win.HC_ACTION Win.WM_LBUTTONDOWN 0
       (LowLevelMouseProc Win.HC_ACTION Win.WM_MOUSEWHEEL 0x00780000
          (initial_state 24 80)))
  = ["MOUSE LEFT CLICK"; "MOUSE SCROLL UP"]%string.
Proof. reflexivity. Qed.

Example wheel_down :
  activeKeys
    (LowLevelMouseProc Win.HC_ACTION Win.WM_MOUSEWHEEL 0xff880000
       (initial_state 24 80))
  = ["MOUSE SCROLL DOWN"%string].
Proof. reflexivity. Qed.

Example empty_name_is_passed_over :
  build_combination [EmptyString; "A"%string] = "A"%string
  /\ String.concat " + " [EmptyString; "A"%string] = " + A"%string.
Proof. split; reflexivity. Qed.

(** * Further properties of the code *)

(** ** Press and release as operations on the key set *)

Lemma In_set_erase (x z : string) (s : list string) :
  set_wf s -> (In z (set_erase x s) <-> z <> x /\ In z s).
Proof.
  intros Hs. split.
  - intros Hz. split; [|eapply In_set_erase_sub; eassumption].
    intros ->. exact (set_erase_gone x s Hs Hz).
  - intros [Hne Hz]. now apply In_set_erase_ne.
Qed.

(** X1: on a well-formed key set, a press followed by the release of the
    same name leaves exactly what the release alone would leave: the name
    is absent, every other name is held as before, and a set that did not
    hold the name is given back unchanged. *)
Theorem press_then_release (name : string) (st : State) :
  set_wf (activeKeys st) ->
  let st' := removeSpecialKey name (addSpecialKey name st) in
  activeKeys st' = activeKeys (removeSpecialKey name st) /\
  ~ In name (activeKeys st') /\
  (forall other, other <> name ->
     (In other (activeKeys st') <-> In other (activeKeys st))) /\
  (~ In name (activeKeys st) -> activeKeys st' = activeKeys st).
Proof.
  intros Hwf. cbn zeta.
  rewrite !removeSpecialKey_activeKeys, addSpecialKey_activeKeys.
  pose proof (set_insert_wf name _ Hwf) as Hwf'.
  assert (E : set_erase name (set_insert name (activeKeys st))
              = set_erase name (activeKeys st)).
  { apply set_wf_unique; try now apply set_erase_wf.
    intros x. rewrite !In_set_erase, In_set_insert by assumption.
    intuition congruence. }
  split; [exact E|]. split; [now apply set_erase_gone|]. split.
  - intros other Hne. rewrite In_set_erase, In_set_insert by assumption.
    intuition congruence.
  - intros Hn. now apply set_erase_insert.
Qed.

Lemma press_then_release_witness :
  let st := press_all ["CTRL"; "A"] (initial_state 24 80) in
  set_wf (activeKeys st) /\
  activeKeys (removeSpecialKey "SHIFT" (addSpecialKey "SHIFT" st))
  = ["A"; "CTRL"].
Proof.
  cbn zeta.
  assert (Hwf : set_wf (activeKeys (press_all ["CTRL"; "A"] (initial_state 24 80)))).
  { rewrite press_all_activeKeys. apply fold_insert_wf, set_wf_nil. }
  split; [exact Hwf|].
  exact (proj1 (press_then_release "SHIFT"
                  (press_all ["CTRL"; "A"] (initial_state 24 80)) Hwf)).
Defined.

(** X2: on a well-formed key set the operations on two names do not
    depend on their order: two presses commute, two releases commute, a
    press commutes with the release of another name, and a second press of
    a held name changes nothing. *)
Theorem key_operations_commute (a b : string) (st : State) :
  set_wf (activeKeys st) ->
  activeKeys (addSpecialKey a (addSpecialKey b st))
    = activeKeys (addSpecialKey b (addSpecialKey a st)) /\
  activeKeys (removeSpecialKey a (removeSpecialKey b st))
    = activeKeys (removeSpecialKey b (removeSpecialKey a st)) /\
  (a <> b ->
   activeKeys (addSpecialKey a (removeSpecialKey b st))
     = activeKeys (removeSpecialKey b (addSpecialKey a st))) /\
  activeKeys (addSpecialKey a (addSpecialKey a st))
    = activeKeys (addSpecialKey a st).
Proof.
  intros Hwf.
  rewrite ?addSpecialKey_activeKeys, ?removeSpecialKey_activeKeys,
    ?addSpecialKey_activeKeys, ?removeSpecialKey_activeKeys.
  repeat split.
  - apply set_wf_unique; try now repeat apply set_insert_wf.
    intros x. rewrite !In_set_insert. tauto.
  - apply set_wf_unique; try now repeat apply set_erase_wf.
    intros x.
    rewrite !In_set_erase by (try apply set_erase_wf; assumption). tauto.
  - intros Hne. apply set_wf_unique.
    + now apply set_insert_wf, set_erase_wf.
    + now apply set_erase_wf, set_insert_wf.
    + intros x.
      rewrite In_set_insert, In_set_erase, In_set_erase, In_set_insert
        by (try apply set_insert_wf; assumption).
      intuition congruence.
  - apply set_insert_idem.
Qed.

Lemma key_operations_commute_witness :
  let st := press_all ["CTRL"; "B"] (initial_state 24 80) in
  set_wf (activeKeys st) /\
  activeKeys (addSpecialKey "A" (removeSpecialKey "B" st)) = ["A"; "CTRL"] /\
  activeKeys (removeSpecialKey "B" (addSpecialKey "A" st)) = ["A"; "CTRL"].
Proof.
  cbn zeta.
  assert (Hwf : set_wf (activeKeys (press_all ["CTRL"; "B"] (initial_state 24 80)))).
  { rewrite press_all_activeKeys. apply fold_insert_wf, set_wf_nil. }
  split; [exact Hwf|]. split; [reflexivity|].
  assert (Hne : "A"%string <> "B"%string) by discriminate.
  rewrite <- (proj1 (proj2 (proj2
    (key_operations_commute "A" "B"
       (press_all ["CTRL"; "B"] (initial_state 24 80)) Hwf))) Hne).
  reflexivity.
Defined.

(** X3: [clearActiveKeys] empties the key set without drawing or touching
    [updated], so the screen keeps its stale frame; the next press then
    shows that key alone. *)
Theorem clear_then_press (name : string) (st : State) :
  activeKeys (clearActiveKeys st) = [] /\
  screen (clearActiveKeys st) = screen st /\
  updated (clearActiveKeys st) = updated st /\
  activeKeys (addSpecialKey name (clearActiveKeys st)) = [name] /\
  shown (addSpecialKey name (clearActiveKeys st))
    = Some (map_chars toupper name).
Proof.
  repeat split.
  unfold shown, addSpecialKey. rewrite updateKeyCombination_screen.
  cbn [activeKeys set_activeKeys clearActiveKeys set_insert set_empty text].
  f_equal. rewrite uppercase_combination_map. reflexivity.
Qed.

(** ** The renderer *)

(** X4: a text that is no longer than the terminal is wide is drawn wholly
    on the screen and centred: the start column is not negative, the text
    ends within the width, and the free columns to its right exceed those to
    its left by at most one. *)
Theorem centred_text_fits (inputText : string) (st : State) :
  0 <= term_width st <= INT_MAX ->
  Z.of_nat (String.length inputText) <= term_width st ->
  let len := Z.of_nat (String.length inputText) in
  let x := center_x (term_width st) inputText in
  0 <= x /\
  x + len <= term_width st /\
  0 <= (term_width st - (x + len)) - x <= 1.
Proof.
  intros Hw Hl. cbn zeta. unfold center_x. cbn zeta.
  rewrite (to_int_small (Z.of_nat (String.length inputText)))
    by (unfold INT_MAX in *; lia).
  rewrite to_int_small by (unfold INT_MAX in *; lia).
  Z.to_euclidean_division_equations. lia.
Qed.

Lemma centred_text_fits_witness :
  0 <= term_width (initial_state 24 80) <= INT_MAX /\
  Z.of_nat (String.length "CTRL + SHIFT + A") <= term_width (initial_state 24 80) /\
  0 <= center_x 80 "CTRL + SHIFT + A" /\
  center_x 80 "CTRL + SHIFT + A" + 16 <= 80.
Proof.
  assert (Hw : 0 <= term_width (initial_state 24 80) <= INT_MAX)
    by (cbn; unfold INT_MAX; lia).
  assert (Hl : Z.of_nat (String.length "CTRL + SHIFT + A")
               <= term_width (initial_state 24 80)) by (cbn; lia).
  split; [exact Hw|]. split; [exact Hl|].
  destruct (centred_text_fits "CTRL + SHIFT + A" (initial_state 24 80) Hw Hl)
    as (H0 & H1 & _).
  split; [exact H0 | exact H1].
Defined.

(** X5: upper-casing keeps the length, so [showPressedKey] draws the
    upper-cased text at the column the combination itself would get, and
    it changes nothing of the state but the screen. *)
Theorem showPressedKey_keeps_column (combination : string) (st : State) :
  let st' := showPressedKey combination st in
  String.length (uppercase_combination combination)
    = String.length combination /\
  screen st' =
    mkFrame (center_y (term_height st))
            (center_x (term_width st) combination)
            (map_chars toupper combination) :: screen st /\
  activeKeys st' = activeKeys st /\ specialKeyMap st' = specialKeyMap st /\
  quit st' = quit st /\ updated st' = updated st.
Proof.
  cbn zeta. rewrite uppercase_combination_map, map_chars_length.
  repeat split.
  unfold showPressedKey, renderText, draw. cbn [screen].
  rewrite uppercase_combination_map. unfold center_x.
  now rewrite map_chars_length.
Qed.

(** ** The loop that builds the combination *)

(** X6: for a well-formed key set the loop of [updateKeyCombination]
    yields the join of the names other than the empty string: an empty name
    can only come first, and the loop passes over it without a separator. *)
Theorem empty_name_leaves_no_separator (s : list string) :
  set_wf s ->
  build_combination s = String.concat " + " (set_erase EmptyString s) /\
  (In EmptyString s ->
     exists rest, s = EmptyString :: rest
                  /\ build_combination s = build_combination rest).
Proof.
  intros Hs. split; [now apply build_combination_wf|].
  intros Hin. destruct s as [|y rest]; [destruct Hin|].
  destruct y as [|c y].
  - exists rest. split; reflexivity.
  - exfalso. destruct Hin as [H|H]; [discriminate H|].
    apply StronglySorted_inv in Hs as [_ Hy].
    rewrite List.Forall_forall in Hy.
    pose proof (string_lt_nonempty _ _ (Hy _ H)) as E. discriminate E.
Qed.

Lemma empty_name_leaves_no_separator_witness :
  set_wf [EmptyString; "A"%string; "B"%string] /\
  build_combination [EmptyString; "A"%string; "B"%string] = "A + B"%string.
Proof.
  assert (Hwf : set_wf [EmptyString; "A"%string; "B"%string]).
  { repeat (constructor; try reflexivity). }
  split; [exact Hwf|].
  exact (proj1 (empty_name_leaves_no_separator _ Hwf)).
Defined.

(** ** The special-key table, from any map *)

(** X7: whatever [specialKeyMap] held before, [initializeKeyMappings]
    leaves the nine table entries in it (overwriting entries under the same
    codes) and every other entry as it was; calling it again changes
    nothing. *)
Theorem initializeKeyMappings_overrides (st : State) :
  specialKeyMap (initializeKeyMappings st) = key_table ∪ specialKeyMap st /\
  initializeKeyMappings (initializeKeyMappings st) = initializeKeyMappings st /\
  activeKeys (initializeKeyMappings st) = activeKeys st /\
  quit (initializeKeyMappings st) = quit st /\
  screen (initializeKeyMappings st) = screen st.
Proof.
  assert (E : forall st0,
            specialKeyMap (initializeKeyMappings st0)
            = key_table ∪ specialKeyMap st0).
  { intros st0. unfold initializeKeyMappings, key_table, special_keys.
    cbn [specialKeyMap set_specialKeyMap list_to_map foldr fst snd uncurry].
    apply map_eq. intros k.
    rewrite lookup_union.
    rewrite !lookup_insert, lookup_empty.
    repeat case_decide; subst; try discriminate; try reflexivity.
    all: destruct (specialKeyMap st0 !! _); reflexivity. }
  assert (Hfields : forall a b : State,
            activeKeys a = activeKeys b -> specialKeyMap a = specialKeyMap b ->
            quit a = quit b -> updated a = updated b ->
            term_height a = term_height b -> term_width a = term_width b ->
            screen a = screen b -> a = b).
  { intros [] []. cbn. intros. subst. reflexivity. }
  split; [apply E|]. split; [|repeat split].
  apply Hfields; try reflexivity.
  rewrite !E. rewrite (assoc_L (∪)). now rewrite (idemp_L (∪)).
Qed.

(** ** Keys and buttons on the X11 path *)

Lemma erase_insert_same (name : string) (s : list string) :
  set_wf s -> set_erase name (set_insert name s) = set_erase name s.
Proof.
  intros Hwf. pose proof (set_insert_wf name _ Hwf) as Hwf'.
  apply set_wf_unique; try now apply set_erase_wf.
  intros x. rewrite !In_set_erase, In_set_insert by assumption.
  intuition congruence.
Qed.

Lemma key_press_resolved
    (XkbKeycodeToKeysym : Z -> Z) (XKeysymToString : Z -> option string)
    (detail : Z) (name : string) (st : State) :
  resolve_key XKeysymToString (specialKeyMap st) (XkbKeycodeToKeysym detail)
    = Some name ->
  str_empty name = false ->
  handleLinuxKeyPress XkbKeycodeToKeysym XKeysymToString detail st
    = Returns (addSpecialKey name st).
Proof.
  unfold resolve_key, handleLinuxKeyPress. cbn zeta. intros -> ->. reflexivity.
Qed.

Lemma key_release_resolved
    (XkbKeycodeToKeysym : Z -> Z) (XKeysymToString : Z -> option string)
    (detail : Z) (name : string) (st : State) :
  resolve_key XKeysymToString (specialKeyMap st) (XkbKeycodeToKeysym detail)
    = Some name ->
  str_empty name = false ->
  handleLinuxKeyRelease XkbKeycodeToKeysym XKeysymToString detail st
    = Returns (removeSpecialKey name st).
Proof.
  unfold resolve_key, handleLinuxKeyRelease. cbn zeta. intros -> ->.
  reflexivity.
Qed.

Lemma addSpecialKey_specialKeyMap (name : string) (st : State) :
  specialKeyMap (addSpecialKey name st) = specialKeyMap st.
Proof. unfold addSpecialKey. now rewrite updateKeyCombination_specialKeyMap. Qed.

(** X8: a key that resolves to a non-empty name is held after its press
    event, and the release event of the same key code then takes that name
    out again: the key set is what a release alone would leave, and a set
    that did not hold the name before comes back unchanged. *)
Theorem key_press_then_release
    (XkbKeycodeToKeysym : Z -> Z) (XKeysymToString : Z -> option string)
    (detail : Z) (name : string) (st : State) :
  set_wf (activeKeys st) ->
  resolve_key XKeysymToString (specialKeyMap st) (XkbKeycodeToKeysym detail)
    = Some name ->
  str_empty name = false ->
  exists pressed released,
    handleLinuxKeyPress XkbKeycodeToKeysym XKeysymToString detail st
      = Returns pressed /\
    handleLinuxKeyRelease XkbKeycodeToKeysym XKeysymToString detail pressed
      = Returns released /\
    In name (activeKeys pressed) /\
    ~ In name (activeKeys released) /\
    activeKeys released = set_erase name (activeKeys st) /\
    (~ In name (activeKeys st) -> activeKeys released = activeKeys st).
Proof.
  intros Hwf Hres Hne.
  exists (addSpecialKey name st),
         (removeSpecialKey name (addSpecialKey name st)).
  split; [now apply key_press_resolved|]. split.
  { apply key_release_resolved; [|exact Hne].
    now rewrite addSpecialKey_specialKeyMap. }
  rewrite removeSpecialKey_activeKeys, addSpecialKey_activeKeys.
  rewrite erase_insert_same by exact Hwf.
  split; [apply In_set_insert_self|]. split; [now apply set_erase_gone|].
  split; [reflexivity|]. intros Hn. now apply set_erase_absent.
Qed.

Lemma key_press_then_release_witness :
  let Xkb := fun d : Z => if d =? 38 then 97 else 0 in
  let Xks := fun k : Z => if k =? 97 then Some "a"%string else None in
  let st := addSpecialKey "Control_L"
              (initializeKeyMappings (initial_state 24 80)) in
  set_wf (activeKeys st) /\
  resolve_key Xks (specialKeyMap st) (Xkb 38) = Some "a"%string /\
  str_empty "a" = false /\
  exists pressed released,
    handleLinuxKeyPress Xkb Xks 38 st = Returns pressed /\
    handleLinuxKeyRelease Xkb Xks 38 pressed = Returns released /\
    activeKeys released = ["Control_L"%string].
Proof.
  cbn zeta.
  assert (Hwf : set_wf (activeKeys
            (addSpecialKey "Control_L"
               (initializeKeyMappings (initial_state 24 80))))).
  { rewrite addSpecialKey_activeKeys. apply set_insert_wf, set_wf_nil. }
  split; [exact Hwf|]. split; [reflexivity|]. split; [reflexivity|].
  destruct (key_press_then_release
              (fun d : Z => if d =? 38 then 97 else 0)
              (fun k : Z => if k =? 97 then Some "a"%string else None)
              38 "a"
              (addSpecialKey "Control_L"
                 (initializeKeyMappings (initial_state 24 80)))
              Hwf eq_refl eq_refl)
    as (pressed & released & H1 & H2 & _ & _ & H3 & _).
  exists pressed, released.
  split; [exact H1|]. split; [exact H2|]. exact H3.
Defined.

(** X9: with the table in place, a key whose keysym (as an [int]) is one
    of the nine codes, and a button whose number is one, are recorded under
    the table's name: for the key this is so whatever [XKeysymToString]
    would answer, a null pointer included, and key and button codes share
    the one table. *)
Theorem special_key_takes_precedence
    (XkbKeycodeToKeysym : Z -> Z) (XKeysymToString : Z -> option string)
    (detail code : Z) (name : string) (st : State) :
  specialKeyMap st = key_table ->
  In (code, name) special_keys ->
  to_int (XkbKeycodeToKeysym detail) = code ->
  handleLinuxKeyPress XkbKeycodeToKeysym XKeysymToString detail st
    = Returns (addSpecialKey name st) /\
  handleLinuxKeyRelease XkbKeycodeToKeysym XKeysymToString detail st
    = Returns (removeSpecialKey name st) /\
  handleLinuxButtonPress code st = addSpecialKey name st /\
  handleLinuxButtonRelease code st = removeSpecialKey name st.
Proof.
  intros Hm Hin Hcode.
  assert (Hlook : specialKeyMap st !! code = Some name).
  { rewrite Hm. now apply key_table_entries. }
  assert (Hne : str_empty name = false).
  { eapply key_table_nonempty. rewrite <- Hm. exact Hlook. }
  split; [|split; [|split]].
  - apply key_press_resolved; [|exact Hne].
    unfold resolve_key. now rewrite Hcode, Hlook.
  - apply key_release_resolved; [|exact Hne].
    unfold resolve_key. now rewrite Hcode, Hlook.
  - unfold handleLinuxButtonPress. cbn zeta. now rewrite Hlook, Hne.
  - unfold handleLinuxButtonRelease. cbn zeta. now rewrite Hlook, Hne.
Qed.

Lemma special_key_takes_precedence_witness :
  let Xkb := fun _ : Z => X11.XK_Page_Up in
  let Xks := fun _ : Z => @None string in
  let st := initializeKeyMappings (initial_state 24 80) in
  specialKeyMap st = key_table /\
  In (X11.XK_Page_Up, "PAGE UP"%string) special_keys /\
  to_int (Xkb 112) = X11.XK_Page_Up /\
  handleLinuxKeyPress Xkb Xks 112 st = Returns (addSpecialKey "PAGE UP" st).
Proof.
  cbn zeta.
  assert (Hm : specialKeyMap (initializeKeyMappings (initial_state 24 80))
               = key_table) by reflexivity.
  assert (Hin : In (X11.XK_Page_Up, "PAGE UP"%string) special_keys)
    by (left; reflexivity).
  split; [exact Hm|]. split; [exact Hin|]. split; [reflexivity|].
  exact (proj1 (special_key_takes_precedence
                  (fun _ : Z => X11.XK_Page_Up) (fun _ : Z => @None string)
                  112 X11.XK_Page_Up "PAGE UP"
                  (initializeKeyMappings (initial_state 24 80))
                  Hm Hin eq_refl)).
Defined.

(** X10: for any button number, mapped or not, a press followed by the
    release of the same button gives back a well-formed key set that did
    not hold the button's name; when that name is not empty it is held in
    between. *)
Theorem button_press_then_release (detail : Z) (st : State) :
  set_wf (activeKeys st) ->
  ~ In (resolve_button (specialKeyMap st) detail) (activeKeys st) ->
  let name := resolve_button (specialKeyMap st) detail in
  let pressed := handleLinuxButtonPress detail st in
  let released := handleLinuxButtonRelease detail pressed in
  activeKeys released = activeKeys st /\
  (In name (activeKeys pressed) <-> str_empty name = false).
Proof.
  intros Hwf Hn. cbn zeta.
  pose proof (handleLinuxButtonPress_specialKeyMap detail st) as Hm.
  unfold handleLinuxButtonRelease, handleLinuxButtonPress in *.
  unfold resolve_button in *. cbn zeta in *.
  destruct (specialKeyMap st !! detail) as [name|] eqn:E.
  - destruct (str_empty name) eqn:Hne; cbn [negb] in *.
    + rewrite E, Hne. cbn [negb]. split; [reflexivity|].
      split; [intros H; contradiction | discriminate].
    + rewrite Hm, E, Hne. cbn [negb].
      rewrite !updateKeyCombination_activeKeys. cbn [activeKeys set_activeKeys].
      split; [now apply set_erase_insert|].
      split; [reflexivity | intros _; apply In_set_insert_self].
  - cbn [str_empty negb] in *. rewrite Hm, E. cbn [str_empty negb].
    rewrite !updateKeyCombination_activeKeys. cbn [activeKeys set_activeKeys].
    split; [now apply set_erase_insert|].
    split; [reflexivity | intros _; apply In_set_insert_self].
Qed.

Lemma button_press_then_release_witness :
  let st := addSpecialKey "CTRL" (initializeKeyMappings (initial_state 24 80)) in
  set_wf (activeKeys st) /\
  ~ In (resolve_button (specialKeyMap st) 3) (activeKeys st) /\
  activeKeys (handleLinuxButtonPress 3 st) = ["CTRL"; "MOUSE RIGHT CLICK"]%string /\
  activeKeys (handleLinuxButtonRelease 3 (handleLinuxButtonPress 3 st))
  = ["CTRL"%string].
Proof.
  cbn zeta.
  assert (Hwf : set_wf (activeKeys
            (addSpecialKey "CTRL" (initializeKeyMappings (initial_state 24 80))))).
  { rewrite addSpecialKey_activeKeys. apply set_insert_wf, set_wf_nil. }
  assert (Hn : ~ In (resolve_button
                       (specialKeyMap
                          (addSpecialKey "CTRL"
                             (initializeKeyMappings (initial_state 24 80)))) 3)
                    (activeKeys
                       (addSpecialKey "CTRL"
                          (initializeKeyMappings (initial_state 24 80))))).
  { vm_compute. intros [H|[]]. discriminate H. }
  split; [exact Hwf|]. split; [exact Hn|]. split; [reflexivity|].
  exact (proj1 (button_press_then_release 3
                  (addSpecialKey "CTRL"
                     (initializeKeyMappings (initial_state 24 80))) Hwf Hn)).
Defined.

(** ** What the screen shows while the program runs *)

Lemma run_invariant
    (XkbKeycodeToKeysym : Z -> Z) (XKeysymToString : Z -> option string)
    (P : System -> Prop) :
  (forall a s s',
     P s -> step XkbKeycodeToKeysym XKeysymToString a s = Some s' -> P s') ->
  forall trace s s',
    P s -> run XkbKeycodeToKeysym XKeysymToString trace s = Some s' -> P s'.
Proof.
  intros Hstep trace. induction trace as [|a trace IH]; intros s s' Hs H.
  - injection H as <-. exact Hs.
  - cbn [run] in H.
    destruct (step XkbKeycodeToKeysym XKeysymToString a s) as [s1|] eqn:E;
      [|discriminate H].
    apply (IH s1 s'); [|exact H]. eapply Hstep; eassumption.
Qed.

Lemma keys_ok_nonempty (s : list string) :
  keys_ok s -> Forall (fun k => str_empty k = false) s.
Proof.
  intros [_ Hne]. apply List.Forall_forall. intros k Hk.
  destruct k; [contradiction | reflexivity].
Qed.

Lemma keys_ok_join (s : list string) :
  keys_ok s -> build_combination s = String.concat " + " s.
Proof. intros H. now apply build_combination_concat, keys_ok_nonempty. Qed.

Lemma concat_nonempty (s : list string) :
  s <> [] -> Forall (fun k => str_empty k = false) s ->
  str_empty (String.concat " + " s) = false.
Proof.
  intros Hs Hall. destruct s as [|k s]; [congruence|].
  apply List.Forall_cons_iff in Hall as [Hk _].
  cbn [String.concat]. destruct s; [exact Hk|].
  rewrite str_empty_append, Hk. reflexivity.
Qed.

Lemma map_chars_empty (f : ascii -> ascii) (s : string) :
  str_empty (map_chars f s) = str_empty s.
Proof. destruct s; reflexivity. Qed.

Lemma map_toupper_upper (s : string) :
  already_uppercase (map_chars toupper s) = true.
Proof.
  unfold already_uppercase. induction s as [|c s IH]; [reflexivity|].
  cbn [map_chars list_ascii_of_string forallb].
  now rewrite toupper_not_lower, IH.
Qed.

Lemma update_display (height width : Z) (ks : list string) (st : State) :
  keys_ok ks ->
  display_invariant height width st ->
  display_invariant height width (updateKeyCombination (set_activeKeys ks st)).
Proof.
  intros Hks (Hh & Hw & _ & Hfr & _). unfold display_invariant, shown.
  rewrite updateKeyCombination_activeKeys, updateKeyCombination_screen.
  unfold updateKeyCombination.
  cbn [activeKeys set_activeKeys term_height term_width screen].
  destruct ks as [|k ks'] eqn:E; cbn [set_empty negb].
  - cbn. repeat split; try assumption; try apply Hks. congruence.
  - rewrite <- E in *. rewrite uppercase_combination_map.
    rewrite keys_ok_join by exact Hks.
    cbn [showPressedKey renderText draw set_updated term_height term_width
           screen text].
    repeat split; try assumption; try apply Hks.
    constructor; [|exact Hfr].
    unfold frame_ok. cbn [text start_y start_x]. rewrite Hh, Hw.
    rewrite map_chars_empty, map_toupper_upper.
    rewrite concat_nonempty;
      [repeat split | rewrite E; discriminate | now apply keys_ok_nonempty].
Qed.

Lemma dispatch_display
    (XkbKeycodeToKeysym : Z -> Z) (XKeysymToString : Z -> option string)
    (height width opcode : Z) (e : XEvent) (st st' : State) :
  dispatch XkbKeycodeToKeysym XKeysymToString opcode e st = Returns st' ->
  display_invariant height width st -> display_invariant height width st'.
Proof.
  unfold dispatch, handleLinuxKeyPress, handleLinuxKeyRelease,
    handleLinuxButtonPress, handleLinuxButtonRelease.
  cbn zeta. intros H Inv.
  assert (Hok : keys_ok (activeKeys st)) by apply Inv.
  repeat match type of H with
         | context [if negb (str_empty ?k) then _ else _] =>
             destruct (str_empty k) eqn:?; cbn [negb] in H
         | context [if ?b then _ else _] => destruct b
         | context [match ?o with Some _ => _ | None => _ end] => destruct o
         end;
    try discriminate H; injection H as <-; try exact Inv;
    apply update_display; auto using keys_ok_insert, keys_ok_erase.
Qed.

Lemma step_display
    (XkbKeycodeToKeysym : Z -> Z) (XKeysymToString : Z -> option string)
    (height width : Z) (a : action) (s s' : System) :
  display_invariant height width (globals s) ->
  step XkbKeycodeToKeysym XKeysymToString a s = Some s' ->
  display_invariant height width (globals s').
Proof.
  destruct s as [g w m d]. unfold step.
  cbn [worker globals main_thread display_open]. intros Inv H.
  destruct a, w, m; try discriminate H;
    repeat match type of H with
           | context [if quit g then _ else _] => destruct (quit g)
           | context [match ?o with Returns _ => _ | Crashes => _ end] =>
               destruct o eqn:?
           end;
    try discriminate H; injection H as <-; cbn [globals];
    try exact Inv;
    try (destruct (_ =? _); exact Inv);
    try (eapply dispatch_display; eassumption).
Qed.

Lemma initial_display (height width : Z) :
  display_invariant height width (initial_state height width).
Proof.
  repeat split; try constructor. intros []. cbn. congruence.
Qed.

(** X11: every frame the program ever draws while handling X events has a
    non-empty text without lower-case letters, in the middle row and at the
    centring column of that text: the renderer is never handed an empty
    string on this path. *)
Theorem frames_are_well_drawn
    (XkbKeycodeToKeysym : Z -> Z) (XKeysymToString : Z -> option string)
    (height width : Z) (trace : list action) (s : System) :
  run XkbKeycodeToKeysym XKeysymToString trace (initial_system height width)
    = Some s ->
  Forall (fun f => str_empty (text f) = false
                   /\ already_uppercase (text f) = true
                   /\ start_y f = center_y height
                   /\ start_x f = center_x width (text f))
         (screen (globals s)).
Proof.
  intros H.
  apply (run_invariant XkbKeycodeToKeysym XKeysymToString
           (fun s => display_invariant height width (globals s))
           (fun a s s' => step_display _ _ height width a s s')
           trace (initial_system height width) s
           (initial_display height width) H).
Qed.

(** X12: in every state the program reaches, as long as some key is held
    the newest frame on the screen is the upper-cased join of exactly the
    held names, in ascending order. *)
Theorem screen_shows_held_keys
    (XkbKeycodeToKeysym : Z -> Z) (XKeysymToString : Z -> option string)
    (height width : Z) (trace : list action) (s : System) :
  run XkbKeycodeToKeysym XKeysymToString trace (initial_system height width)
    = Some s ->
  activeKeys (globals s) <> [] ->
  StronglySorted string_lt (activeKeys (globals s)) /\
  shown (globals s) =
    Some (map_chars toupper (String.concat " + " (activeKeys (globals s)))).
Proof.
  intros H Hne.
  pose proof (run_invariant XkbKeycodeToKeysym XKeysymToString
           (fun s => display_invariant height width (globals s))
           (fun a s s' => step_display _ _ height width a s s')
           trace (initial_system height width) s
           (initial_display height width) H) as (_ & _ & Hok & _ & Hshown).
  split; [apply Hok | now apply Hshown].
Qed.

Lemma frames_are_well_drawn_witness :
  let Xkb := fun _ : Z => 97 in
  let Xks := fun _ : Z => Some "a"%string in
  let s := mkSystem (addSpecialKey "a" (initializeKeyMappings (initial_state 24 80)))
                    (W_loop 131) M_loop true in
  run Xkb Xks [A_connected 131; A_enter_wait; A_event (mkXEvent 35 131 2 38)]
      (initial_system 24 80) = Some s /\
  map text (screen (globals s)) = ["A"%string] /\
  Forall (fun f => str_empty (text f) = false
                   /\ already_uppercase (text f) = true
                   /\ start_y f = center_y 24
                   /\ start_x f = center_x 80 (text f))
         (screen (globals s)).
Proof.
  cbn zeta.
  assert (Hrun : run (fun _ : Z => 97) (fun _ : Z => Some "a"%string)
                   [A_connected 131; A_enter_wait;
                    A_event (mkXEvent 35 131 2 38)]
                   (initial_system 24 80)
                 = Some (mkSystem
                           (addSpecialKey "a"
                              (initializeKeyMappings (initial_state 24 80)))
                           (W_loop 131) M_loop true))
    by reflexivity.
  split; [exact Hrun|]. split; [reflexivity|].
  exact (frames_are_well_drawn _ _ _ _ _ _ Hrun).
Defined.

Lemma screen_shows_held_keys_witness :
  let Xkb := fun d : Z => if d =? 38 then 97 else 65505 in
  let Xks := fun k : Z => if k =? 97 then Some "a"%string
                          else Some "Shift_L"%string in
  let s := mkSystem (addSpecialKey "a"
                       (addSpecialKey "Shift_L"
                          (initializeKeyMappings (initial_state 24 80))))
                    (W_loop 131) M_loop true in
  run Xkb Xks [A_connected 131; A_enter_wait; A_event (mkXEvent 35 131 2 50);
               A_enter_wait; A_event (mkXEvent 35 131 2 38)]
      (initial_system 24 80) = Some s /\
  activeKeys (globals s) <> [] /\
  shown (globals s) = Some "SHIFT_L + A"%string.
Proof.
  cbn zeta.
  assert (Hrun : run (fun d : Z => if d =? 38 then 97 else 65505)
                   (fun k : Z => if k =? 97 then Some "a"%string
                                 else Some "Shift_L"%string)
                   [A_connected 131; A_enter_wait;
                    A_event (mkXEvent 35 131 2 50);
                    A_enter_wait; A_event (mkXEvent 35 131 2 38)]
                   (initial_system 24 80)
                 = Some (mkSystem
                           (addSpecialKey "a"
                              (addSpecialKey "Shift_L"
                                 (initializeKeyMappings (initial_state 24 80))))
                           (W_loop 131) M_loop true))
    by reflexivity.
  assert (Hne : activeKeys
                  (globals
                     (mkSystem
                        (addSpecialKey "a"
                           (addSpecialKey "Shift_L"
                              (initializeKeyMappings (initial_state 24 80))))
                        (W_loop 131) M_loop true)) <> [])
    by discriminate.
  split; [exact Hrun|]. split; [exact Hne|].
  exact (proj2 (screen_shows_held_keys _ _ _ _ _ _ Hrun Hne)).
Defined.

(** ** The shutdown flag and the connection *)

Lemma step_quit
    (XkbKeycodeToKeysym : Z -> Z) (XKeysymToString : Z -> option string)
    (a : action) (s s' : System) :
  step XkbKeycodeToKeysym XKeysymToString a s = Some s' ->
  (quit (globals s') = true <->
   quit (globals s) = true \/ a = A_getch 113).
Proof.
  destruct s as [g w m d]. unfold step.
  cbn [worker globals main_thread display_open]. intros H.
  destruct (quit g) eqn:Hq;
  destruct a, w, m; try discriminate H;
    repeat match type of H with
           | context [match ?o with Returns _ => _ | Crashes => _ end] =>
               destruct o eqn:?
           end;
    try discriminate H; injection H as <-; cbn [globals];
    try match goal with
        | E : dispatch _ _ _ _ _ = Returns _ |- _ =>
            apply dispatch_keeps in E as [_ ->]
        end;
    try (destruct (Z.eqb_spec ch 113) as [->|Hch]; cbn [quit set_quit]);
    cbn [quit initializeKeyMappings set_specialKeyMap];
    rewrite ?Hq;
    (split; [tauto || (intros _; right; reflexivity)
            | intros [Hf|Ha];
              [exact Hf || reflexivity || discriminate Hf
              | reflexivity || discriminate Ha
                || (injection Ha as ->; contradiction)]]).
Qed.

(** X13: [quit] is set exactly by the main thread reading [q] from the
    terminal: after any run, the flag is true if and only if some round of
    the polling loop read [q]; nothing sets it otherwise and nothing ever
    clears it. *)
Theorem quit_set_by_q_only
    (XkbKeycodeToKeysym : Z -> Z) (XKeysymToString : Z -> option string)
    (height width : Z) (trace : list action) (s : System) :
  run XkbKeycodeToKeysym XKeysymToString trace (initial_system height width)
    = Some s ->
  (quit (globals s) = true <-> In (A_getch 113) trace).
Proof.
  assert (Hgen : forall s0,
            run XkbKeycodeToKeysym XKeysymToString trace s0 = Some s ->
            (quit (globals s) = true <->
             quit (globals s0) = true \/ In (A_getch 113) trace)).
  { induction trace as [|a trace IH]; intros s0 H.
    - injection H as <-. simpl. tauto.
    - cbn [run] in H.
      destruct (step XkbKeycodeToKeysym XKeysymToString a s0) as [s1|] eqn:E;
        [|discriminate H].
      rewrite (IH s1 H), (step_quit _ _ _ _ _ E). simpl.
      intuition congruence. }
  intros H. rewrite (Hgen _ H). cbn. intuition congruence.
Qed.

Lemma quit_set_by_q_only_witness :
  let Xkb := fun _ : Z => 97 in
  let Xks := fun _ : Z => Some "a"%string in
  let s := mkSystem (set_quit true (initializeKeyMappings (initial_state 24 80)))
                    (W_wait 131) M_loop true in
  run Xkb Xks [A_connected 131; A_getch 120; A_enter_wait; A_getch 113]
      (initial_system 24 80) = Some s /\
  quit (globals s) = true /\
  In (A_getch 113) [A_connected 131; A_getch 120; A_enter_wait; A_getch 113].
Proof.
  cbn zeta.
  assert (Hrun : run (fun _ : Z => 97) (fun _ : Z => Some "a"%string)
                   [A_connected 131; A_getch 120; A_enter_wait; A_getch 113]
                   (initial_system 24 80)
                 = Some (mkSystem
                           (set_quit true
                              (initializeKeyMappings (initial_state 24 80)))
                           (W_wait 131) M_loop true))
    by reflexivity.
  split; [exact Hrun|]. split; [reflexivity|].
  exact (proj1 (quit_set_by_q_only _ _ _ _ _ _ Hrun) eq_refl).
Defined.

Lemma step_connection
    (XkbKeycodeToKeysym : Z -> Z) (XKeysymToString : Z -> option string)
    (a : action) (s s' : System) :
  connection_invariant s ->
  step XkbKeycodeToKeysym XKeysymToString a s = Some s' ->
  connection_invariant s'.
Proof.
  destruct s as [g w m d]. unfold step, connection_invariant.
  cbn [worker globals main_thread display_open]. intros [Hd Hm] H.
  destruct (quit g) eqn:Hq;
  destruct a, w, m; try discriminate H;
    repeat match type of H with
           | context [match ?o with Returns _ => _ | Crashes => _ end] =>
               destruct o eqn:?
           end;
    try discriminate H; injection H as <-;
    cbn [worker globals main_thread display_open];
    try match goal with
        | E : dispatch _ _ _ _ _ = Returns _ |- _ =>
            apply dispatch_keeps in E as [_ ->]
        end;
    cbn [quit initializeKeyMappings set_specialKeyMap];
    rewrite ?Hq; try tauto; try (destruct Hm; discriminate).
Qed.

(** X14: in every state the program reaches, the connection to the X
    server is open exactly while the worker is in its event loop (or has
    crashed there) and is closed once the worker has returned, on each of
    its three return paths; [main] gets past [join] only with [quit] set
    and the worker returned, so the process exits with the display closed. *)
Theorem connection_closed_before_exit
    (XkbKeycodeToKeysym : Z -> Z) (XKeysymToString : Z -> option string)
    (height width : Z) (trace : list action) (s : System) :
  run XkbKeycodeToKeysym XKeysymToString trace (initial_system height width)
    = Some s ->
  (display_open s = true <->
   (exists opcode, worker s = W_loop opcode \/ worker s = W_wait opcode)
   \/ worker s = W_crashed) /\
  (main_thread s <> M_loop -> quit (globals s) = true) /\
  (main_thread s = M_exited ->
   worker s = W_returned /\ display_open s = false).
Proof.
  intros H.
  assert (Inv : connection_invariant s).
  { apply (run_invariant XkbKeycodeToKeysym XKeysymToString
             connection_invariant
             (step_connection XkbKeycodeToKeysym XKeysymToString)
             trace (initial_system height width) s); [|exact H].
    split; [reflexivity | exact I]. }
  destruct Inv as [Hd Hm]. split; [|split].
  - destruct (worker s) eqn:Hw; rewrite Hd; split;
      try discriminate; eauto;
      intros [[op [Hc|Hc]]|Hc]; discriminate Hc.
  - intros Hne. destruct (main_thread s); [congruence | exact Hm | apply Hm].
  - intros He. rewrite He in Hm. destruct Hm as [_ Hw]. split; [exact Hw|].
    now rewrite Hw in Hd.
Qed.

Lemma connection_closed_before_exit_witness :
  let Xkb := fun _ : Z => 113 in
  let Xks := fun _ : Z => Some "q"%string in
  let s := mkSystem
             (addSpecialKey "q"
                (set_quit true (initializeKeyMappings (initial_state 24 80))))
             W_returned M_exited false in
  run Xkb Xks [A_connected 131; A_enter_wait; A_getch 113;
               A_event (mkXEvent 35 131 2 24); A_worker_exit;
               A_main_leave; A_join]
      (initial_system 24 80) = Some s /\
  (main_thread s = M_exited -> worker s = W_returned /\ display_open s = false).
Proof.
  cbn zeta.
  assert (Hrun : run (fun _ : Z => 113) (fun _ : Z => Some "q"%string)
                   [A_connected 131; A_enter_wait; A_getch 113;
                    A_event (mkXEvent 35 131 2 24); A_worker_exit;
                    A_main_leave; A_join]
                   (initial_system 24 80)
                 = Some (mkSystem
                           (addSpecialKey "q"
                              (set_quit true
                                 (initializeKeyMappings (initial_state 24 80))))
                           W_returned M_exited false))
    by reflexivity.
  split; [exact Hrun|].
  exact (proj2 (proj2 (connection_closed_before_exit _ _ _ _ _ _ Hrun))).
Defined.

(** X15: when the worker gives up at start-up, because the display cannot
    be opened or the XInput extension is missing, the rest of the run never
    records a key nor draws a frame, whatever follows; the failure is not
    passed on to [main], which still polls for [q]. *)
Theorem startup_failure_shows_nothing
    (XkbKeycodeToKeysym : Z -> Z) (XKeysymToString : Z -> option string)
    (height width : Z) (first : action) (trace : list action) (s : System) :
  first = A_open_failed \/ first = A_no_extension ->
  run XkbKeycodeToKeysym XKeysymToString (first :: trace)
      (initial_system height width) = Some s ->
  worker s = W_returned /\ display_open s = false /\
  activeKeys (globals s) = [] /\ screen (globals s) = [] /\
  Forall (fun a => actor a = Main) trace.
Proof.
  intros Hfirst H. cbn [run] in H.
  set (P := fun s : System =>
              worker s = W_returned /\ display_open s = false
              /\ activeKeys (globals s) = [] /\ screen (globals s) = []).
  assert (Hstep : forall a s1 s2,
            P s1 -> step XkbKeycodeToKeysym XKeysymToString a s1 = Some s2 ->
            P s2 /\ actor a = Main).
  { intros a [g w m d] s2 (Hw & Hd & Hk & Hs) E. unfold step in E.
    cbn [worker globals main_thread display_open] in *. subst w d.
    destruct a, m; try discriminate E;
      destruct (quit g); try discriminate E; injection E as <-;
      unfold P; cbn [worker globals display_open];
      try (destruct (_ =? _)); cbn [activeKeys screen set_quit]; auto. }
  assert (Hgen : forall tr s1, P s1 ->
            run XkbKeycodeToKeysym XKeysymToString tr s1 = Some s ->
            P s /\ Forall (fun a => actor a = Main) tr).
  { induction tr as [|a tr IH]; intros s1 Hs1 Hr.
    - injection Hr as <-. split; [exact Hs1 | constructor].
    - cbn [run] in Hr.
      destruct (step XkbKeycodeToKeysym XKeysymToString a s1) as [s2|] eqn:E;
        [|discriminate Hr].
      destruct (Hstep _ _ _ Hs1 E) as [Hs2 Ha].
      destruct (IH s2 Hs2 Hr) as [Hs Hall].
      split; [exact Hs | constructor; assumption]. }
  destruct Hfirst as [-> | ->]; cbn in H;
    (eapply Hgen in H; [|repeat split]);
    destruct H as [(Hw & Hd & Hk & Hs) Hall]; auto.
Qed.

Lemma startup_failure_shows_nothing_witness :
  let Xkb := fun _ : Z => 97 in
  let Xks := fun _ : Z => Some "a"%string in
  let s := mkSystem (set_quit true (initial_state 24 80))
                    W_returned M_exited false in
  (A_open_failed = A_open_failed \/ A_open_failed = A_no_extension) /\
  run Xkb Xks [A_open_failed; A_getch 120; A_getch 113; A_main_leave; A_join]
      (initial_system 24 80) = Some s /\
  worker s = W_returned /\ activeKeys (globals s) = [].
Proof.
  cbn zeta.
  assert (Hrun : run (fun _ : Z => 97) (fun _ : Z => Some "a"%string)
                   [A_open_failed; A_getch 120; A_getch 113;
                    A_main_leave; A_join]
                   (initial_system 24 80)
                 = Some (mkSystem (set_quit true (initial_state 24 80))
                                  W_returned M_exited false))
    by reflexivity.
  split; [now left|]. split; [exact Hrun|].
  destruct (startup_failure_shows_nothing _ _ _ _ _ _ _
              (or_introl eq_refl) Hrun) as (Hw & _ & Hk & _).
  split; [exact Hw | exact Hk].
Defined.

(** ** The Windows hooks *)

Lemma mouse_hook_keeps_name (nCode wParam mouseData : Z) (name : string)
    (st : State) :
  str_empty name = false ->
  In name (activeKeys st) ->
  In name (activeKeys (LowLevelMouseProc nCode wParam mouseData st)).
Proof.
  intros Hne Hin. unfold LowLevelMouseProc.
  destruct (nCode =? Win.HC_ACTION); [|exact Hin].
  cbn zeta.
  assert (Hname : name <> EmptyString) by (intros ->; discriminate Hne).
  assert (Hins : forall b, In name (activeKeys
            (if negb (str_empty b)
             then updateKeyCombination
                    (set_activeKeys (set_insert b (activeKeys st)) st)
             else st))).
  { intros b. destruct (negb (str_empty b)); [|exact Hin].
    rewrite updateKeyCombination_activeKeys. cbn [activeKeys set_activeKeys].
    apply In_set_insert. now right. }
  destruct (Z.eqb_spec wParam Win.WM_LBUTTONDOWN) as [->|H1];
    [cbn [Z.eqb Pos.eqb orb Win.WM_LBUTTONDOWN Win.WM_MBUTTONDOWN
            Win.WM_RBUTTONDOWN Win.WM_MOUSEWHEEL Win.WM_LBUTTONUP
            Win.WM_MBUTTONUP Win.WM_RBUTTONUP]; apply Hins|].
  destruct (Z.eqb_spec wParam Win.WM_MBUTTONDOWN) as [->|H2];
    [cbn [Z.eqb Pos.eqb orb Win.WM_LBUTTONDOWN Win.WM_MBUTTONDOWN
            Win.WM_RBUTTONDOWN Win.WM_MOUSEWHEEL Win.WM_LBUTTONUP
            Win.WM_MBUTTONUP Win.WM_RBUTTONUP]; apply Hins|].
  destruct (Z.eqb_spec wParam Win.WM_RBUTTONDOWN) as [->|H3];
    [cbn [Z.eqb Pos.eqb orb Win.WM_LBUTTONDOWN Win.WM_MBUTTONDOWN
            Win.WM_RBUTTONDOWN Win.WM_MOUSEWHEEL Win.WM_LBUTTONUP
            Win.WM_MBUTTONUP Win.WM_RBUTTONUP]; apply Hins|].
  destruct (Z.eqb_spec wParam Win.WM_MOUSEWHEEL) as [->|H4];
    [cbn [Z.eqb Pos.eqb orb Win.WM_LBUTTONDOWN Win.WM_MBUTTONDOWN
            Win.WM_RBUTTONDOWN Win.WM_MOUSEWHEEL Win.WM_LBUTTONUP
            Win.WM_MBUTTONUP Win.WM_RBUTTONUP]; apply Hins|].
  cbn [str_empty negb].
  destruct ((wParam =? Win.WM_LBUTTONUP) || (wParam =? Win.WM_MBUTTONUP)
            || (wParam =? Win.WM_RBUTTONUP)); [|exact Hin].
  rewrite updateKeyCombination_activeKeys. cbn [activeKeys set_activeKeys].
  now apply In_set_erase_ne.
Qed.

(** X16: the Windows mouse hook never takes a (non-empty) name out of the
    key set: whatever messages it is called with, a name that is held stays
    held, so clicks and wheel turns only ever add to what is shown. *)
Theorem mouse_hook_never_releases (messages : list (Z * Z * Z))
    (name : string) (st : State) :
  str_empty name = false ->
  In name (activeKeys st) ->
  In name (activeKeys (mouse_hook_run messages st)).
Proof.
  intros Hne. unfold mouse_hook_run. revert st.
  induction messages as [|m messages IH]; intros st Hin; [exact Hin|].
  cbn [fold_left]. apply IH. now apply mouse_hook_keeps_name.
Qed.

Lemma mouse_hook_never_releases_witness :
  let st := LowLevelMouseProc Win.HC_ACTION Win.WM_MOUSEWHEEL 0x00780000
              (initial_state 24 80) in
  let messages := [(Win.HC_ACTION, Win.WM_LBUTTONDOWN, 0);
                   (Win.HC_ACTION, Win.WM_LBUTTONUP, 0);
                   (Win.HC_ACTION, Win.WM_RBUTTONUP, 0)] in
  str_empty "MOUSE SCROLL UP" = false /\
  In "MOUSE SCROLL UP"%string (activeKeys st) /\
  activeKeys (mouse_hook_run messages st)
    = ["MOUSE LEFT CLICK"; "MOUSE SCROLL UP"]%string /\
  In "MOUSE SCROLL UP"%string (activeKeys (mouse_hook_run messages st)).
Proof.
  cbn zeta.
  assert (Hin : In "MOUSE SCROLL UP"%string
                  (activeKeys
                     (LowLevelMouseProc Win.HC_ACTION Win.WM_MOUSEWHEEL
                        0x00780000 (initial_state 24 80))))
    by (left; reflexivity).
  split; [reflexivity|]. split; [exact Hin|]. split; [reflexivity|].
  exact (mouse_hook_never_releases
           [(Win.HC_ACTION, Win.WM_LBUTTONDOWN, 0);
            (Win.HC_ACTION, Win.WM_LBUTTONUP, 0);
            (Win.HC_ACTION, Win.WM_RBUTTONUP, 0)]
           "MOUSE SCROLL UP" _ eq_refl Hin).
Defined.

Lemma wheel_delta_high_word (mouseData : Z) :
  0 <= mouseData < 2 ^ 32 ->
  Win.GET_WHEEL_DELTA_WPARAM mouseData =
  if mouseData / 65536 <? 32768
  then mouseData / 65536 else mouseData / 65536 - 65536.
Proof.
  intros H. unfold Win.GET_WHEEL_DELTA_WPARAM, wrap.
  rewrite Z.shiftr_div_pow2 by lia.
  change 0xffff with (Z.ones 16). rewrite Z.land_ones by lia.
  change (2 ^ 16) with 65536. change (2 ^ (16 - 1)) with 32768.
  assert (Hhi : 0 <= mouseData / 65536 < 65536).
  { split; [apply Z.div_pos; lia|].
    apply Z.div_lt_upper_bound; [lia|]. change (2 ^ 32) with 4294967296 in H.
    lia. }
  rewrite (Z.mod_small (mouseData / 65536)) by exact Hhi.
  destruct (Z.ltb_spec (mouseData / 65536) 32768).
  - rewrite Z.mod_small by lia. lia.
  - replace (mouseData / 65536 + 32768)
      with ((mouseData / 65536 - 32768) + 1 * 65536) by lia.
    rewrite Z.mod_add by lia. rewrite Z.mod_small by lia. lia.
Qed.

(** X17: a wheel message records "MOUSE SCROLL UP" exactly when the high
    word of [mouseData], read as a signed 16-bit number, is positive, that
    is when it lies between 1 and 32767; a zero or negative delta records
    "MOUSE SCROLL DOWN". *)
Theorem wheel_direction (mouseData : Z) (st : State) :
  0 <= mouseData < 2 ^ 32 ->
  let high := mouseData / 65536 in
  activeKeys (LowLevelMouseProc Win.HC_ACTION Win.WM_MOUSEWHEEL mouseData st)
  = set_insert (if (0 <? high) && (high <? 32768)
                then "MOUSE SCROLL UP" else "MOUSE SCROLL DOWN")
               (activeKeys st).
Proof.
  intros H. cbn zeta. unfold LowLevelMouseProc.
  cbn [Z.eqb Pos.eqb orb Win.HC_ACTION Win.WM_MOUSEWHEEL Win.WM_LBUTTONDOWN
         Win.WM_MBUTTONDOWN Win.WM_RBUTTONDOWN Win.WM_LBUTTONUP
         Win.WM_MBUTTONUP Win.WM_RBUTTONUP].
  cbn zeta. rewrite (wheel_delta_high_word _ H).
  destruct (Z.ltb_spec (mouseData / 65536) 32768) as [Hlt|Hge].
  - rewrite andb_true_r.
    destruct (0 <? mouseData / 65536);
      cbn [str_empty negb]; apply updateKeyCombination_activeKeys.
  - rewrite andb_false_r.
    assert (E : (0 <? mouseData / 65536 - 65536) = false).
    { apply Z.ltb_ge.
      assert (mouseData / 65536 < 65536).
      { apply Z.div_lt_upper_bound; [lia|].
        change (2 ^ 32) with 4294967296 in H. lia. }
      lia. }
    rewrite E. cbn [str_empty negb]. apply updateKeyCombination_activeKeys.
Qed.

Lemma wheel_direction_witness :
  0 <= 0xff880000 < 2 ^ 32 /\
  activeKeys (LowLevelMouseProc Win.HC_ACTION Win.WM_MOUSEWHEEL 0xff880000
                (initial_state 24 80))
  = ["MOUSE SCROLL DOWN"%string].
Proof.
  assert (H : 0 <= 0xff880000 < 2 ^ 32) by (split; [lia | reflexivity]).
  split; [exact H|].
  exact (wheel_direction 0xff880000 (initial_state 24 80) H).
Defined.

Lemma keyboard_hook_named
    (GetKeyNameTextA : Z -> option string) (scanCode : Z) (key name : string)
    (st : State) :
  GetKeyNameTextA (to_int (Z.shiftl scanCode 16 mod 2 ^ 32)) = Some name ->
  LowLevelKeyboardProc GetKeyNameTextA Win.HC_ACTION WinKbd.WM_KEYDOWN
    scanCode key st = addSpecialKey name st /\
  LowLevelKeyboardProc GetKeyNameTextA Win.HC_ACTION WinKbd.WM_KEYUP
    scanCode key st = removeSpecialKey name st.
Proof.
  intros H. unfold LowLevelKeyboardProc. cbn zeta. rewrite H.
  split; reflexivity.
Qed.

(** X18: on the Windows keyboard hook a key-down followed by the key-up of
    the same scan code takes the key's name out of a well-formed key set
    again, whatever else is held (the symmetry that the mouse hook lacks);
    the name is looked up from the scan code alone, so both messages agree
    on it. *)
Theorem key_down_then_up
    (GetKeyNameTextA : Z -> option string) (scanCode : Z)
    (key1 key2 name : string) (st : State) :
  set_wf (activeKeys st) ->
  GetKeyNameTextA (to_int (Z.shiftl scanCode 16 mod 2 ^ 32)) = Some name ->
  let down := LowLevelKeyboardProc GetKeyNameTextA Win.HC_ACTION
                WinKbd.WM_KEYDOWN scanCode key1 st in
  let up := LowLevelKeyboardProc GetKeyNameTextA Win.HC_ACTION
              WinKbd.WM_KEYUP scanCode key2 down in
  In name (activeKeys down) /\
  ~ In name (activeKeys up) /\
  activeKeys up = set_erase name (activeKeys st) /\
  (~ In name (activeKeys st) -> activeKeys up = activeKeys st).
Proof.
  intros Hwf Hname. cbn zeta.
  rewrite (proj1 (keyboard_hook_named _ scanCode key1 name st Hname)).
  rewrite (proj2 (keyboard_hook_named _ scanCode key2 name _ Hname)).
  rewrite removeSpecialKey_activeKeys, addSpecialKey_activeKeys.
  rewrite erase_insert_same by exact Hwf.
  split; [apply In_set_insert_self|]. split; [now apply set_erase_gone|].
  split; [reflexivity|]. intros Hn. now apply set_erase_absent.
Qed.

Lemma key_down_then_up_witness :
  let names := fun lParam : Z =>
                 if lParam =? 0x1E0000 then Some "A"%string else None in
  let st := addSpecialKey "CTRL" (initial_state 24 80) in
  set_wf (activeKeys st) /\
  names (to_int (Z.shiftl 0x1E 16 mod 2 ^ 32)) = Some "A"%string /\
  activeKeys (LowLevelKeyboardProc names Win.HC_ACTION WinKbd.WM_KEYDOWN
                0x1E "" st) = ["A"; "CTRL"]%string /\
  activeKeys (LowLevelKeyboardProc names Win.HC_ACTION WinKbd.WM_KEYUP 0x1E ""
                (LowLevelKeyboardProc names Win.HC_ACTION WinKbd.WM_KEYDOWN
                   0x1E "" st)) = ["CTRL"%string].
Proof.
  cbn zeta.
  assert (Hwf : set_wf (activeKeys (addSpecialKey "CTRL" (initial_state 24 80)))).
  { rewrite addSpecialKey_activeKeys. apply set_insert_wf, set_wf_nil. }
  split; [exact Hwf|]. split; [reflexivity|]. split; [reflexivity|].
  exact (proj1 (proj2 (proj2
    (key_down_then_up
       (fun lParam : Z => if lParam =? 0x1E0000 then Some "A"%string else None)
       0x1E "" "" "A" (addSpecialKey "CTRL" (initial_state 24 80))
       Hwf eq_refl)))).
Defined.

(** X19: the keyboard hook has no guard against an empty key name: when
    [GetKeyNameTextA] gives the empty string, the key-down puts the empty
    string into the key set and draws the join of the other held names, so
    from an empty set it draws an empty text. *)
Theorem unnamed_key_is_recorded
    (GetKeyNameTextA : Z -> option string) (scanCode : Z) (key : string)
    (st : State) :
  set_wf (activeKeys st) ->
  GetKeyNameTextA (to_int (Z.shiftl scanCode 16 mod 2 ^ 32))
    = Some EmptyString ->
  let down := LowLevelKeyboardProc GetKeyNameTextA Win.HC_ACTION
                WinKbd.WM_KEYDOWN scanCode key st in
  In EmptyString (activeKeys down) /\
  shown down =
    Some (map_chars toupper
            (String.concat " + " (set_erase EmptyString (activeKeys st)))) /\
  (activeKeys st = [] -> shown down = Some EmptyString).
Proof.
  intros Hwf Hname. cbn zeta.
  rewrite (proj1 (keyboard_hook_named _ scanCode key _ st Hname)).
  assert (Hshown : shown (addSpecialKey EmptyString st) =
            Some (map_chars toupper
                    (String.concat " + "
                       (set_erase EmptyString (activeKeys st))))).
  { unfold shown, addSpecialKey. rewrite updateKeyCombination_screen.
    cbn [activeKeys set_activeKeys]. rewrite set_insert_nonempty.
    cbn [text]. rewrite uppercase_combination_map.
    rewrite build_combination_wf by now apply set_insert_wf.
    now rewrite erase_insert_same. }
  split; [rewrite addSpecialKey_activeKeys; apply In_set_insert_self|].
  split; [exact Hshown|].
  intros E. rewrite Hshown, E. reflexivity.
Qed.

Lemma unnamed_key_is_recorded_witness :
  let names := fun _ : Z => Some EmptyString in
  let st := addSpecialKey "CTRL" (initial_state 24 80) in
  set_wf (activeKeys st) /\
  names (to_int (Z.shiftl 0x7F 16 mod 2 ^ 32)) = Some EmptyString /\
  activeKeys (LowLevelKeyboardProc names Win.HC_ACTION WinKbd.WM_KEYDOWN
                0x7F "" st) = [EmptyString; "CTRL"%string] /\
  shown (LowLevelKeyboardProc names Win.HC_ACTION WinKbd.WM_KEYDOWN
           0x7F "" st) = Some "CTRL"%string.
Proof.
  cbn zeta.
  assert (Hwf : set_wf (activeKeys (addSpecialKey "CTRL" (initial_state 24 80)))).
  { rewrite addSpecialKey_activeKeys. apply set_insert_wf, set_wf_nil. }
  split; [exact Hwf|]. split; [reflexivity|]. split; [reflexivity|].
  exact (proj1 (proj2
    (unnamed_key_is_recorded (fun _ : Z => Some EmptyString) 0x7F ""
       (addSpecialKey "CTRL" (initial_state 24 80)) Hwf eq_refl))).
Defined.

(** ** Width of the combination and repeated events *)

Lemma length_concat_sep (keys : list string) :
  keys <> [] ->
  (String.length (String.concat " + " keys) + 3
   = list_sum (map String.length keys) + 3 * length keys)%nat.
Proof.
  induction keys as [|k ks IH]; [congruence|]. intros _.
  destruct ks as [|k' ks].
  - cbn. lia.
  - assert (Hne : k' :: ks <> []) by discriminate.
    specialize (IH Hne).
    change (String.concat " + " (k :: k' :: ks))
      with (k +:+ " + " +:+ String.concat " + " (k' :: ks)).
    change (list_sum (map String.length (k :: k' :: ks)))
      with (String.length k + list_sum (map String.length (k' :: ks)))%nat.
    change (length (k :: k' :: ks)) with (S (length (k' :: ks))).
    rewrite !length_append. change (String.length " + ") with 3%nat. lia.
Qed.

(** X20: the combination string of [n] non-empty names is as long as the
    names together plus three characters for each of the [n - 1]
    separators, and so is the text that is drawn. *)
Theorem combination_length (keys : list string) :
  keys <> [] ->
  Forall (fun k => str_empty k = false) keys ->
  (String.length (build_combination keys) + 3
   = list_sum (map String.length keys) + 3 * length keys)%nat /\
  String.length (uppercase_combination (build_combination keys))
  = String.length (build_combination keys).
Proof.
  intros Hne Hall. split.
  - rewrite build_combination_concat by exact Hall.
    now apply length_concat_sep.
  - now rewrite uppercase_combination_map, map_chars_length.
Qed.

Lemma combination_length_witness :
  ["A"; "CTRL"; "SHIFT"]%string <> [] /\
  Forall (fun k => str_empty k = false) ["A"; "CTRL"; "SHIFT"]%string /\
  (String.length (build_combination ["A"; "CTRL"; "SHIFT"]%string) + 3
   = (1 + 4 + 5) + 3 * 3)%nat.
Proof.
  assert (Hne : ["A"; "CTRL"; "SHIFT"]%string <> []) by discriminate.
  assert (Hall : Forall (fun k => str_empty k = false)
                        ["A"; "CTRL"; "SHIFT"]%string)
    by (repeat constructor).
  split; [exact Hne|]. split; [exact Hall|].
  exact (proj1 (combination_length _ Hne Hall)).
Defined.

Lemma set_insert_present (x : string) (s : list string) :
  set_wf s -> In x s -> set_insert x s = s.
Proof.
  intros Hwf Hin. apply set_wf_unique; [now apply set_insert_wf | exact Hwf |].
  intros z. rewrite In_set_insert. intuition congruence.
Qed.

(** X21: a press of a name that is already held (a repeating key) leaves
    the key set and the text on the screen as they are, and still draws:
    one more frame, equal to the newest one, is put on the screen. *)
Theorem repeated_press_redraws (name : string) (st : State) :
  set_wf (activeKeys st) ->
  In name (activeKeys st) ->
  activeKeys (addSpecialKey name (addSpecialKey name st))
    = activeKeys (addSpecialKey name st) /\
  activeKeys (addSpecialKey name st) = activeKeys st /\
  exists f,
    screen (addSpecialKey name st) = f :: screen st /\
    screen (addSpecialKey name (addSpecialKey name st))
      = f :: f :: screen st.
Proof.
  intros Hwf Hin.
  assert (E : activeKeys (addSpecialKey name st) = activeKeys st).
  { rewrite addSpecialKey_activeKeys. now apply set_insert_present. }
  split; [rewrite addSpecialKey_activeKeys, E; now apply set_insert_present|].
  split; [exact E|].
  assert (Hne : set_empty (activeKeys st) = false).
  { destruct (activeKeys st); [destruct Hin | reflexivity]. }
  assert (Hs : forall st0, activeKeys st0 = activeKeys st ->
            screen (addSpecialKey name st0) =
            mkFrame (center_y (term_height st0))
                    (center_x (term_width st0)
                       (uppercase_combination (build_combination (activeKeys st))))
                    (uppercase_combination (build_combination (activeKeys st)))
            :: screen st0).
  { intros st0 E0. unfold addSpecialKey. rewrite updateKeyCombination_screen.
    cbn [activeKeys set_activeKeys term_height term_width screen].
    rewrite E0, (set_insert_present name _ Hwf Hin), Hne. reflexivity. }
  eexists. split; [apply (Hs st eq_refl)|].
  rewrite (Hs (addSpecialKey name st) E), (Hs st eq_refl).
  unfold addSpecialKey, updateKeyCombination.
  destruct (negb (set_empty _)); reflexivity.
Qed.

Lemma repeated_press_redraws_witness :
  let st := press_all ["CTRL"; "A"] (initial_state 24 80) in
  set_wf (activeKeys st) /\
  In "A"%string (activeKeys st) /\
  activeKeys (addSpecialKey "A" st) = ["A"; "CTRL"]%string /\
  map text (screen (addSpecialKey "A" st))
    = ["A + CTRL"; "A + CTRL"; "CTRL"]%string.
Proof.
  cbn zeta.
  assert (Hwf : set_wf (activeKeys (press_all ["CTRL"; "A"] (initial_state 24 80)))).
  { rewrite press_all_activeKeys. apply fold_insert_wf, set_wf_nil. }
  assert (Hin : In "A"%string
                  (activeKeys (press_all ["CTRL"; "A"] (initial_state 24 80))))
    by (left; reflexivity).
  split; [exact Hwf|]. split; [exact Hin|].
  split; [|reflexivity].
  exact (proj1 (proj2 (repeated_press_redraws "A" _ Hwf Hin))).
Defined.
